(** * metric_tank: the request contract (req.go) and the definition cache
      (defcache), embedded from the Go source.

    Layout of the development:
    - [uint32] arithmetic and the [Req] value of req.go;
    - the schema records and the pattern index used by the definition cache;
    - a small state-and-panic monad in which [Backfill], [Add], [addToES]
      and [Get] are written the way the Go code is;
    - the critical sections of [Add] as atomic steps of an interleaving
      semantics (the read/write lock makes each locked region atomic);
    - the theorems. *)

From stdpp Require Import gmap strings list fin_maps pretty.

Open Scope Z_scope.

(** ** Machine integers *)

(** Go's [uint32]: arithmetic is modulo 2^32. *)
Definition wrap32 (z : Z) : Z := z mod 2 ^ 32.

Definition sub32 (a b : Z) : Z := wrap32 (a - b).

Definition is_uint32 (z : Z) : Prop := 0 <= z < 2 ^ 32.

(** ** req.go *)

Section Req.

(** [consolidation.Consolidator] lives in another package; [Req] only
    stores it and prints it with [%s]. *)
Context {Consolidator : Type}.
Variable Consolidator_String : Consolidator -> string.

(** [TS] is a helper of package main that renders a timestamp; it is not
    part of req.go. *)
Variable TS : Z -> string.

Record Req := mkReq {
  key : string;
  from : Z;          (* uint32 *)
  to : Z;            (* uint32 *)
  minPoints : Z;     (* uint32 *)
  maxPoints : Z;     (* uint32 *)
  consolidator : Consolidator;
  archive : Z;       (* int: -1 means original data, 0 last agg level, ... *)
  rawInterval : Z;   (* uint32 *)
  archInterval : Z;  (* uint32 *)
  outInterval : Z;   (* uint32 *)
  aggNum : Z         (* uint32 *)
}.

Definition NewReq (key : string) (from to minPoints maxPoints : Z)
    (consolidator : Consolidator) : Req :=
  mkReq key from to minPoints maxPoints consolidator
        (-2) (* this is supposed to be updated still! *)
        0 0 0 0.

(** The uint32 fields of a [Req] hold uint32 values. *)
Definition Req_wf (r : Req) : Prop :=
  is_uint32 (from r) /\ is_uint32 (to r) /\
  is_uint32 (minPoints r) /\ is_uint32 (maxPoints r).

(** The expression [r.to-r.from-1] of [String]: two uint32 subtractions. *)
Definition Req_span (r : Req) : Z := sub32 (sub32 (to r) (from r)) 1.

(** [%d] on an integer. *)
Definition fmt_d (z : Z) : string := pretty z.

Definition Req_String (r : Req) : string :=
  key r +:+ " " +:+ fmt_d (from r) +:+ " - " +:+ fmt_d (to r) +:+
  " (" +:+ TS (from r) +:+ " - " +:+ TS (to r) +:+ ") span:" +:+
  fmt_d (Req_span r) +:+ "s. " +:+ fmt_d (minPoints r) +:+
  " <= points <= " +:+ fmt_d (maxPoints r) +:+ ". " +:+
  Consolidator_String (consolidator r).

Definition Req_DebugString (r : Req) : string :=
  key r +:+ " " +:+ fmt_d (from r) +:+ " - " +:+ fmt_d (to r) +:+
  " . " +:+ fmt_d (minPoints r) +:+ " <= points <= " +:+
  fmt_d (maxPoints r) +:+ ". " +:+ Consolidator_String (consolidator r) +:+
  " - archive " +:+ fmt_d (archive r) +:+ ", rawInt " +:+
  fmt_d (rawInterval r) +:+ ", archInt " +:+ fmt_d (archInterval r) +:+
  ", outInt " +:+ fmt_d (outInterval r) +:+ ", aggNum " +:+
  fmt_d (aggNum r).

End Req.

Arguments Req : clear implicits.

(** ** Package schema *)

(** Modelled from the spec: package schema (the records [MetricData],
    [MetricDefinition] and [MetricDefinitionFromMetricData]) is not part of
    the sources at hand.  A definition carries an external id, a tenant
    (organisation) id, a hierarchical name and a last-update timestamp in
    epoch seconds; the remaining series metadata is not touched by the
    cache and is left out.  A metric data point carries the same identity
    and the time of the point, which becomes the last-update of the
    definition built from it. *)
Record MetricDefinition := mkMetricDefinition {
  Id : string;
  OrgId : Z;
  Name : string;
  LastUpdate : Z
}.

(** Modelled from the spec: the data point handed to [Add], with the
    external id, the tenant, the name and the time of the point. *)
Record MetricData := mkMetricData {
  md_Id : string;
  md_OrgId : Z;
  md_Name : string;
  md_Time : Z
}.

(** Modelled from the spec: [schema.MetricDefinitionFromMetricData], the
    definition of the series a data point belongs to, last seen at the time
    of the point. *)
Definition MetricDefinitionFromMetricData (d : MetricData) : MetricDefinition :=
  {| Id := md_Id d; OrgId := md_OrgId d; Name := md_Name d;
     LastUpdate := md_Time d |}.

Global Instance MetricDefinition_eq_dec : EqDecision MetricDefinition.
Proof. solve_decision. Defined.

Global Instance MetricData_eq_dec : EqDecision MetricData.
Proof. solve_decision. Defined.

(** Should the schema store its times as Go int64, [metric.Time-21600]
    wraps around below the least int64; the staleness test would read as
    follows.  [stale_int64_agrees] relates it to the test on integers that
    the cache is modelled with. *)
Definition wrap64 (z : Z) : Z := (z + 2 ^ 63) mod 2 ^ 64 - 2 ^ 63.

Definition stale_int64 (mdef : MetricDefinition) (metric : MetricData) : bool :=
  LastUpdate mdef <? wrap64 (md_Time metric - 21600).

(** ** Package idx: the pattern index *)

(** Modelled from the spec: package idx is not part of the sources at hand.
    [GetOrAdd] returns the identifier of a (tenant, name) pair seen before
    and otherwise allocates the next identifier, counting from 0; [AddRef]
    adds one to the reference count of an identifier for a tenant.
    [revkeys] lists the indexed pairs, the pair of identifier [i] at
    position [i]: it records the name under which [i] was allocated.  The
    trigram postings, [Match], [List] and [Prune] are not used by the code
    modelled here. *)
Record Idx := mkIdx {
  revkeys : list (Z * string);
  refs : gmap (Z * nat) nat
}.

(** Modelled from the spec: [idx.New], the empty index. *)
Definition Idx_New : Idx := mkIdx [] ∅.

(** Modelled from the spec: the identifier of a pair seen before. *)
Definition Idx_Get (org : Z) (name : string) (ix : Idx) : option nat :=
  fst <$> list_find (λ k, k = (org, name)) (revkeys ix).

(** Modelled from the spec: [GetOrAdd], idempotent; the identifier of a pair
    seen before, or else the next identifier, which the pair then has. *)
Definition Idx_GetOrAdd (org : Z) (name : string) (ix : Idx) : nat * Idx :=
  match Idx_Get org name ix with
  | Some id => (id, ix)
  | None => (length (revkeys ix),
             mkIdx (revkeys ix ++ [(org, name)]) (refs ix))
  end.

(** Modelled from the spec: [AddRef], cumulative; one more reference to the
    identifier for the tenant. *)
Definition Idx_AddRef (org : Z) (id : nat) (ix : Idx) : Idx :=
  mkIdx (revkeys ix)
        (<[(org, id) := S (default 0%nat (refs ix !! (org, id)))]> (refs ix)).

(** Modelled from the spec, and from the comment of [List] in the cache: a
    series is listed for a tenant when the tenant owns it or the shared
    tenant -1 does; tenant -1 is given every series. *)
Definition Idx_visible (org owner : Z) : bool :=
  (org =? -1) || (owner =? org) || (owner =? -1).

Fixpoint Idx_List_from (org : Z) (i : nat) (keys : list (Z * string)) : list nat :=
  match keys with
  | [] => []
  | (owner, _) :: keys' =>
      if Idx_visible org owner
      then i :: Idx_List_from org (S i) keys'
      else Idx_List_from org (S i) keys'
  end.

(** Modelled from the spec: [List], the identifiers visible to a tenant, in
    the order they were allocated. *)
Definition Idx_List (org : Z) (ix : Idx) : list nat :=
  Idx_List_from org 0 (revkeys ix).

(** Modelled from the spec: the kind of match [Match] reports, and one
    match, an identifier with the name matched. *)
Inductive MatchType :=
  | MatchLiteral
  | MatchPrefix
  | MatchTrigram.

Record Glob := mkGlob {
  glob_Id : nat;
  glob_Metric : string
}.

(** ** Package metricdef: the durable store *)

(** A Go [error], by its message. *)
Definition error := string.

(** The interface [metricdef.Defs] as far as the cache uses it.  A store has
    a state of its own; a call returns its results and the next state.
    [GetMetrics] returns a page, the next scroll id and an error;
    [IndexMetric] returns an error. *)
Class Defs (S : Type) := {
  GetMetrics : string -> S -> (list MetricDefinition * string * option error) * S;
  IndexMetric : MetricDefinition -> S -> option error * S
}.

(** A store driven by a script: the page served for each scroll id, and the
    results of the successive [IndexMetric] calls (no error once the script
    is used up). *)
Record ScriptStore := mkScriptStore {
  pages : string -> list MetricDefinition * string * option error;
  index_results : list (option error)
}.

Global Instance ScriptStore_Defs : Defs ScriptStore := {
  GetMetrics scroll_id s := (pages s scroll_id, s);
  IndexMetric _ s :=
    match index_results s with
    | [] => (None, s)
    | r :: rs => (r, mkScriptStore (pages s) rs)
    end
}.

(** ** The definition cache *)

(** What the program does to the outside, in order. *)
Inductive event :=
  | EvGetMetrics (scroll_id : string)
  | EvIndexMetric (mdef : MetricDefinition) (err : option error)
  | EvLogError (msg : string)
  | EvLogDebug (msg : string).

Global Instance event_eq_dec : EqDecision event.
Proof. solve_decision. Defined.

(** How a computation ends: normally, with a Go run-time panic (an index
    out of range), or without an answer within the given number of loop
    iterations. *)
Inductive result (A : Type) :=
  | Ok (a : A)
  | Panic
  | OutOfFuel.
Arguments Ok {A} a.
Arguments Panic {A}.
Arguments OutOfFuel {A}.

(** *** Callers of Add *)

(** How a call of [Add] ended: the stored definition was fresh at the first
    check; the call refreshed it; the re-check under the lock found it fresh
    after all; the call created the definition; the re-check under the lock
    found the id registered after all. *)
Inductive outcome :=
  | Fresh
  | Refreshed
  | RefreshSkipped
  | Created
  | Abandoned.

Global Instance outcome_eq_dec : EqDecision outcome.
Proof. solve_decision. Defined.

(** Where a caller of [Add] stands: before each of its locked regions, with
    the local variables that are live there, or past the end. *)
Inductive pc :=
  | AtLookup                                        (* line 168 *)
  | AtRead (id : nat)                               (* line 174 *)
  | AtRefresh (id : nat) (mdef : MetricDefinition)  (* line 183 *)
  | AtCreate (mdef : MetricDefinition)              (* line 195 *)
  | Done (o : outcome).

(** The callers in flight: each with its argument and its place. *)
Abbreviation pool := (list (MetricData * pc)).

(** The locked regions a caller at [c] may still have to run. *)
Definition remaining (c : pc) : nat :=
  match c with
  | AtLookup => 3
  | AtRead _ => 2
  | AtRefresh _ _ | AtCreate _ => 1
  | Done _ => 0
  end.

Section DefCache.

Context {Store : Type} `{!Defs Store}.

(** The struct [DefCache].  The embedded [sync.RWMutex] has no field here:
    a region between [Lock]/[RLock] and the matching unlock runs as one
    atomic step (see [thread_step] below). *)
Record DefCache := mkDefCache {
  defs : list MetricDefinition;
  ById : gmap string nat;     (* by hashed id *)
  ByKey : Idx;                (* by graphite key *)
  defsStore : Store
}.

(** The cache, the two counters of package defcache that [addToES] bumps,
    and the trace of outside calls.  The timers ([esPutDuration] and the
    like) measure wall-clock time and are left out. *)
Record World := mkWorld {
  dc : DefCache;
  metricsToEsOK : nat;
  metricsToEsFail : nat;
  trace : list event
}.

(** The part of the cache that lives in memory. *)
Definition in_memory (w : World) : list MetricDefinition * gmap string nat * Idx :=
  (defs (dc w), ById (dc w), ByKey (dc w)).

(** *** The monad: state of type [World], and panics *)

Definition M (A : Type) : Type := World -> result (A * World).

Definition ret {A} (a : A) : M A := fun w => Ok (a, w).

Definition bind {A B} (c : M A) (k : A -> M B) : M B :=
  fun w =>
    match c w with
    | Ok (a, w') => k a w'
    | Panic => Panic
    | OutOfFuel => OutOfFuel
    end.

Definition panic {A} : M A := fun _ => Panic.

Definition out_of_fuel {A} : M A := fun _ => OutOfFuel.

Definition get_dc : M DefCache := fun w => Ok (dc w, w).

Definition put_dc (d : DefCache) : M unit :=
  fun w => Ok (tt, mkWorld d (metricsToEsOK w) (metricsToEsFail w) (trace w)).

Definition emit (e : event) : M unit :=
  fun w => Ok (tt, mkWorld (dc w) (metricsToEsOK w) (metricsToEsFail w) (trace w ++ [e])).

Notation "x <- c ;; k" := (bind c (fun x => k))
  (at level 100, c at next level, right associativity).
Notation "c ;;; k" := (bind c (fun _ => k))
  (at level 100, right associativity).

(** [for _, x := range l { body x }] *)
Fixpoint for_range {A} (l : list A) (body : A -> M unit) : M unit :=
  match l with
  | [] => ret tt
  | x :: l' => body x ;;; for_range l' body
  end.

(** *** Field accesses of [dc] *)

(** [dc.ById[k]] with the comma-ok form. *)
Definition ById_lookup (k : string) : M (option nat) :=
  d <- get_dc ;; ret (ById d !! k).

(** [dc.ById[k] = id] *)
Definition ById_store (k : string) (id : nat) : M unit :=
  d <- get_dc ;;
  put_dc (mkDefCache (defs d) (<[k := id]> (ById d)) (ByKey d) (defsStore d)).

(** [dc.defs[id]]: panics when [id] is out of range. *)
Definition defs_index (id : nat) : M MetricDefinition :=
  d <- get_dc ;;
  match defs d !! id with
  | Some mdef => ret mdef
  | None => panic
  end.

(** [dc.defs[id] = mdef]: panics when [id] is out of range. *)
Definition defs_assign (id : nat) (mdef : MetricDefinition) : M unit :=
  d <- get_dc ;;
  if decide (id < length (defs d))%nat
  then put_dc (mkDefCache (<[id := mdef]> (defs d)) (ById d) (ByKey d) (defsStore d))
  else panic.

(** [dc.defs = append(dc.defs, mdef)] *)
Definition defs_append (mdef : MetricDefinition) : M unit :=
  d <- get_dc ;;
  put_dc (mkDefCache (defs d ++ [mdef]) (ById d) (ByKey d) (defsStore d)).

(** [dc.ByKey.GetOrAdd(org, name)] *)
Definition ByKey_GetOrAdd (org : Z) (name : string) : M nat :=
  d <- get_dc ;;
  let '(id, ix) := Idx_GetOrAdd org name (ByKey d) in
  put_dc (mkDefCache (defs d) (ById d) ix (defsStore d)) ;;;
  ret id.

(** [dc.ByKey.AddRef(org, id)] *)
Definition ByKey_AddRef (org : Z) (id : nat) : M unit :=
  d <- get_dc ;;
  put_dc (mkDefCache (defs d) (ById d) (Idx_AddRef org id (ByKey d)) (defsStore d)).

(** [dc.defsStore.GetMetrics(scroll_id)] *)
Definition defsStore_GetMetrics (scroll_id : string)
  : M (list MetricDefinition * string * option error) :=
  d <- get_dc ;;
  let '(r, s) := GetMetrics scroll_id (defsStore d) in
  put_dc (mkDefCache (defs d) (ById d) (ByKey d) s) ;;;
  emit (EvGetMetrics scroll_id) ;;;
  ret r.

(** [dc.defsStore.IndexMetric(mdef)] *)
Definition defsStore_IndexMetric (mdef : MetricDefinition) : M (option error) :=
  d <- get_dc ;;
  let '(err, s) := IndexMetric mdef (defsStore d) in
  put_dc (mkDefCache (defs d) (ById d) (ByKey d) s) ;;;
  emit (EvIndexMetric mdef err) ;;;
  ret err.

Definition metricsToEsOK_Inc : M unit :=
  fun w => Ok (tt, mkWorld (dc w) (S (metricsToEsOK w)) (metricsToEsFail w) (trace w)).

Definition metricsToEsFail_Inc : M unit :=
  fun w => Ok (tt, mkWorld (dc w) (metricsToEsOK w) (S (metricsToEsFail w)) (trace w)).

Definition log_Error (msg : string) : M unit := emit (EvLogError msg).

Definition log_Debug (msg : string) : M unit := emit (EvLogDebug msg).

(** *** Backfill *)

(** The body of the [for _, def := range met] loop (lines 140-143). *)
Definition Backfill_def (def : MetricDefinition) : M unit :=
  id <- ByKey_GetOrAdd (OrgId def) (Name def) ;; (* gets id auto assigned from 0 and onwards *)
  ByKey_AddRef (OrgId def) id ;;;
  ById_store (Id def) id ;;;
  defs_append def. (* which maps 1:1 with pos in this array *)

(** The closure [add] of [Backfill]; [total] is the captured counter, whose
    new value is returned.  The loop runs between [dc.Lock()] and
    [dc.Unlock()]. *)
Definition Backfill_add (total : Z) (met : list MetricDefinition) : M Z :=
  if decide (0 < length met)%nat then
    for_range met Backfill_def ;;;
    ret (total + Z.of_nat (length met))
  else ret total.

Definition backfill_error (err : error) : string :=
  "Could not backfill from ES: " +:+ err.

Definition backfill_done (total : Z) : string :=
  "backfilled " +:+ pretty total +:+ " metric definitions".

(** [for scroll_id != "" { ... }]: the store decides how many pages there
    are, so the loop is given a number of iterations it may use. *)
Fixpoint Backfill_loop (fuel : nat) (total : Z) (scroll_id : string) : M unit :=
  if decide (scroll_id = "") then log_Debug (backfill_done total)
  else
    match fuel with
    | O => out_of_fuel
    | S fuel' =>
        r <- defsStore_GetMetrics scroll_id ;;
        let '(met, scroll_id', err) := r in
        match err with
        | Some e => log_Error (backfill_error e)
        | None =>
            total' <- Backfill_add total met ;;
            Backfill_loop fuel' total' scroll_id'
        end
    end.

Definition Backfill (fuel : nat) : M unit :=
  r <- defsStore_GetMetrics "" ;;
  let '(met, scroll_id, err) := r in
  match err with
  | Some e => log_Error (backfill_error e)
  | None =>
      total <- Backfill_add 0 met ;;
      Backfill_loop fuel total scroll_id
  end.

(** *** addToES *)

Definition index_error (mdef : MetricDefinition) (err : error) : string :=
  "couldn't index to ES " +:+ Id mdef +:+ ": " +:+ err.

Definition addToES (mdef : MetricDefinition) : M unit :=
  err <- defsStore_IndexMetric mdef ;;
  match err with
  | Some e =>
      log_Error (index_error mdef e) ;;;
      metricsToEsFail_Inc
  | None => metricsToEsOK_Inc
  end.

(** *** Add *)

(** [mdef.LastUpdate < metric.Time-21600] *)
Definition stale (mdef : MetricDefinition) (metric : MetricData) : bool :=
  LastUpdate mdef <? md_Time metric - 21600.

(** Lines 168-170: [dc.RLock(); id, ok := dc.ById[metric.Id]; dc.RUnlock()]. *)
Definition Add_lookup (metric : MetricData) : M (option nat) :=
  ById_lookup (md_Id metric).

(** Lines 174-176: [dc.RLock(); mdef := dc.defs[id]; dc.RUnlock()]. *)
Definition Add_read (id : nat) : M MetricDefinition :=
  defs_index id.

(** Lines 183-189: the refresh under the exclusive lock. *)
Definition Add_refresh (metric : MetricData) (id : nat) (mdef : MetricDefinition) : M unit :=
  old <- defs_index id ;;
  if stale old metric then
    addToES mdef ;;;
    defs_assign id mdef
  else ret tt.

(** Lines 195-207: the creation under the exclusive lock. *)
Definition Add_create (metric : MetricData) (mdef : MetricDefinition) : M unit :=
  ok <- ById_lookup (md_Id metric) ;;
  match ok with
  | Some _ => ret tt (* someone beat us to it. nothing left to do *)
  | None =>
      addToES mdef ;;;
      id <- ByKey_GetOrAdd (OrgId mdef) (Name mdef) ;;
      ByKey_AddRef (OrgId mdef) id ;;;
      ById_store (Id mdef) id ;;;
      defs_append mdef
  end.

Definition Add (metric : MetricData) : M unit :=
  ok <- Add_lookup metric ;;
  match ok with
  | Some id =>
      mdef <- Add_read id ;;
      if stale mdef metric then
        let mdef := MetricDefinitionFromMetricData metric in
        Add_refresh metric id mdef
      else ret tt
  | None =>
      let mdef := MetricDefinitionFromMetricData metric in
      Add_create metric mdef
  end.

(** *** Get *)

(** [Get] returns a pointer into [dc.defs]; the model returns the value
    stored there at the time of the call. *)
Definition Get (id : string) : M (option MetricDefinition) :=
  ok <- ById_lookup id ;;
  match ok with
  | Some i => def <- defs_index i ;; ret (Some def)
  | None => ret None
  end.

(** *** New *)

(** The cache as [New] builds it, before [Backfill] runs. *)
Definition New_dc (defsStore : Store) : DefCache :=
  mkDefCache [] ∅ Idx_New defsStore.

Definition New_world (defsStore : Store) : World :=
  mkWorld (New_dc defsStore) 0 0 [].

(** *** Concurrent callers of Add *)

(** One locked region of [Add], run atomically, and the place the caller
    reaches next.  The code between two regions touches locals only.  In the
    last two cases the first line reads what the region is about to test, to
    name the outcome; the region itself is the one [Add] runs. *)
Definition thread_step (metric : MetricData) (p : pc) : M pc :=
  match p with
  | AtLookup =>
      ok <- Add_lookup metric ;;
      ret (match ok with
           | Some id => AtRead id
           | None => AtCreate (MetricDefinitionFromMetricData metric)
           end)
  | AtRead id =>
      mdef <- Add_read id ;;
      ret (if stale mdef metric
           then AtRefresh id (MetricDefinitionFromMetricData metric)
           else Done Fresh)
  | AtRefresh id mdef =>
      old <- defs_index id ;;
      Add_refresh metric id mdef ;;;
      ret (Done (if stale old metric then Refreshed else RefreshSkipped))
  | AtCreate mdef =>
      ok <- ById_lookup (md_Id metric) ;;
      Add_create metric mdef ;;;
      ret (Done (match ok with Some _ => Abandoned | None => Created end))
  | Done o => ret (Done o)
  end.

Definition spawn (ms : list MetricData) : pool :=
  map (fun m => (m, AtLookup)) ms.

(** Caller [i] runs its next locked region; a number that names no caller
    does nothing. *)
Definition pool_step (i : nat) (p : pool) : M pool :=
  match p !! i with
  | Some (m, c) => c' <- thread_step m c ;; ret (<[i := (m, c')]> p)
  | None => ret p
  end.

(** A schedule lists which caller moves next. *)
Fixpoint run (sched : list nat) (p : pool) : M pool :=
  match sched with
  | [] => ret p
  | i :: sched' => p' <- pool_step i p ;; run sched' p'
  end.

Definition is_done (t : MetricData * pc) : bool :=
  match t.2 with
  | Done _ => true
  | _ => false
  end.

Definition all_done (p : pool) : bool := forallb is_done p.



Definition is_IndexMetric (e : event) : bool :=
  match e with
  | EvIndexMetric _ _ => true
  | _ => false
  end.

(** The write-throughs so far: the calls of [IndexMetric] in the trace. *)
Definition write_throughs (w : World) : nat :=
  length (List.filter is_IndexMetric (trace w)).

(** Calls of [Add] one after the other. *)
Definition Add_each (metrics : list MetricData) : M unit :=
  for_range metrics Add.

(** *** Invariants of the cache *)

(** Every registered identifier is a position of [defs]: no lookup panics. *)
Definition in_range (d : DefCache) : Prop :=
  (length (revkeys (ByKey d)) <= length (defs d))%nat /\
  forall k id, ById d !! k = Some id -> (id < length (revkeys (ByKey d)))%nat.

(** Position [i] of [defs] holds the tenant and the name under which the
    identifier [i] was allocated. *)
Definition position_is_id (d : DefCache) : Prop :=
  forall i org name,
    revkeys (ByKey d) !! i = Some (org, name) ->
    exists def, defs d !! i = Some def /\ OrgId def = org /\ Name def = name.

(** The worlds the program can be in: the one [New] builds, and those that
    a batch of [Backfill] or a call of [Add] leads to. *)
Inductive reachable : World -> Prop :=
  | reach_New s : reachable (New_world s)
  | reach_Backfill_add total met w total' w' :
      reachable w -> Backfill_add total met w = Ok (total', w') -> reachable w'
  | reach_Add metric w w' :
      reachable w -> Add metric w = Ok (tt, w') -> reachable w'.

(** *** List and Find *)

(** [out[i] = &dc.defs[id]] for each [id]: the address of a slot that does
    not exist is a panic. *)
Fixpoint defs_project (ids : list nat) : M (list MetricDefinition) :=
  match ids with
  | [] => ret []
  | id :: ids' =>
      def <- defs_index id ;;
      out <- defs_project ids' ;;
      ret (def :: out)
  end.

(** [List], between [dc.RLock()] and [dc.RUnlock()]; the result holds the
    values stored at the time of the call. *)
Definition List (org : Z) : M (list MetricDefinition) :=
  d <- get_dc ;;
  let list := Idx_List org (ByKey d) in
  defs_project list.

(** [idx.Match] is not part of the sources: [Find] is written over any
    function of its type. *)
Variable Match : Z -> string -> Idx -> MatchType * list Glob.

(** [Find], between [dc.RLock()] and [dc.RUnlock()]; the match kind only
    selects the timer that is fed. *)
Definition Find (org : Z) (key : string) : M (list Glob * list MetricDefinition) :=
  d <- get_dc ;;
  let '(mt, globs) := Match org key (ByKey d) in
  defs <- defs_project (map glob_Id globs) ;;
  ret (globs, defs).

(** [New]: the empty cache, then [Backfill].  The goroutine [Prune] that
    [New] starts calls [idx.Prune] on a timer and is left out. *)
Definition New (fuel : nat) (defsStore : Store) : result (unit * World) :=
  Backfill fuel (New_world defsStore).

Definition is_LogError (e : event) : bool :=
  match e with
  | EvLogError _ => true
  | _ => false
  end.

(** The error lines logged so far. *)
Definition log_errors (w : World) : nat :=
  length (List.filter is_LogError (trace w)).

(** *** The cache when external ids and names go together *)

(** Positions and identifiers coincide, and the identity map is one to one
    with the slots: an id is registered under the slot that holds its
    definition. *)
Definition consistent (d : DefCache) : Prop :=
  length (revkeys (ByKey d)) = length (defs d) /\
  position_is_id d /\
  (forall k id, ById d !! k = Some id ->
     exists def, defs d !! id = Some def /\ Id def = k) /\
  (forall i def, defs d !! i = Some def -> ById d !! Id def = Some i).

(** The data point belongs to the series its external id stands for: a
    registered id comes with the tenant and the name stored for it, an
    unregistered id with a tenant and name not indexed yet. *)
Definition same_series (w : World) (m : MetricData) : Prop :=
  match ById (dc w) !! md_Id m with
  | Some id =>
      forall def, defs (dc w) !! id = Some def ->
                  OrgId def = md_OrgId m /\ Name def = md_Name m
  | None => Idx_Get (md_OrgId m) (md_Name m) (ByKey (dc w)) = None
  end.

(** *** Invariants of the interleavings *)







End DefCache.

Arguments DefCache : clear implicits.
Arguments World : clear implicits.
Arguments M : clear implicits.


(** From [H : reachable w] to the world that [Add m] leads to from [w]. *)
Ltac reach_Add_from H m :=
  match type of H with
  | reachable ?w =>
      let r := eval vm_compute in (Add m w) in
      match r with
      | Ok (_, ?w1) =>
          let H' := fresh H in
          assert (H' : reachable w1)
            by (apply (reach_Add m w w1 H); vm_compute; reflexivity);
          clear H; rename H' into H
      end
  end.

(** The effect of the four lines that index a definition (lines 140-143 of
    [Backfill], lines 203-206 of [Add]) on the in-memory part of the cache. *)
Definition register (def : MetricDefinition)
    (mem : list MetricDefinition * gmap string nat * Idx)
  : list MetricDefinition * gmap string nat * Idx :=
  let '(defs, byId, byKey) := mem in
  let '(id, ix) := Idx_GetOrAdd (OrgId def) (Name def) byKey in
  (defs ++ [def], <[Id def := id]> byId, Idx_AddRef (OrgId def) id ix).

(** The world [w] with its in-memory part replaced. *)
Definition with_memory {Store : Type}
    (mem : list MetricDefinition * gmap string nat * Idx) (w : World Store)
  : World Store :=
  mkWorld (mkDefCache mem.1.1 mem.1.2 mem.2 (defsStore (dc w)))
          (metricsToEsOK w) (metricsToEsFail w) (trace w).

(** The successive pages a store serves from a scroll id on, up to the page
    that fails: each page with the scroll id it was asked with, then the
    scroll id of the failing call, its error and the store afterwards. *)
Inductive fetches {Store : Type} `{!Defs Store}
  : Store -> string -> list (string * list MetricDefinition) -> string -> error -> Store -> Prop :=
  | fetches_error s c met sc e s' :
      GetMetrics c s = ((met, sc, Some e), s') ->
      fetches s c [] c e s'
  | fetches_page s c met sc s' pgs ce e s'' :
      GetMetrics c s = ((met, sc, None), s') ->
      sc <> "" ->
      fetches s' sc pgs ce e s'' ->
      fetches s c ((c, met) :: pgs) ce e s''.

(** The successive pages a store serves from a scroll id on, up to and
    with the page that comes with the empty scroll id: each page with the
    scroll id it was asked with, and the store afterwards. *)
Inductive serves {Store : Type} `{!Defs Store}
  : Store -> string -> list (string * list MetricDefinition) -> Store -> Prop :=
  | serves_last s c met s' :
      GetMetrics c s = ((met, "", None), s') ->
      serves s c [(c, met)] s'
  | serves_page s c met sc s' pgs s'' :
      GetMetrics c s = ((met, sc, None), s') ->
      sc <> "" ->
      serves s' sc pgs s'' ->
      serves s c ((c, met) :: pgs) s''.

(** ** Sample data *)

Module Sample.

Definition no_pages : string -> list MetricDefinition * string * option error :=
  fun _ => ([], "", None).

(** A store with nothing in it whose writes succeed. *)
Definition store_ok : ScriptStore := mkScriptStore no_pages [].

(** A store whose first write fails. *)
Definition store_failing : ScriptStore := mkScriptStore no_pages [Some "bulk buffer full"].

Definition T : Z := 1000000.

Definition host_cpu (time : Z) : MetricData := mkMetricData "abc" 1 "host.cpu" time.

(** The cache after [Add] of id abc for tenant 1, name host.cpu, at time [T]. *)
Definition w_abc : World ScriptStore :=
  mkWorld (mkDefCache [MetricDefinitionFromMetricData (host_cpu T)]
                      {["abc" := 0%nat]}
                      (mkIdx [(1, "host.cpu")] {[(1, 0%nat) := 1%nat]})
                      store_ok)
          1 0
          [EvIndexMetric (MetricDefinitionFromMetricData (host_cpu T)) None].

(** Three series; the second has the tenant and the name of the first under
    another external id (another interval of the same series, say). *)
Definition m_a : MetricData := mkMetricData "a" 1 "x" T.
Definition m_b : MetricData := mkMetricData "b" 1 "x" T.
Definition m_c : MetricData := mkMetricData "c" 1 "y" T.

(** A store that serves two pages and fails on the third. *)
Definition two_pages_then_error : ScriptStore :=
  mkScriptStore
    (fun scroll_id =>
       if decide (scroll_id = "") then
         ([MetricDefinitionFromMetricData m_a], "s1", None)
       else if decide (scroll_id = "s1") then
         ([MetricDefinitionFromMetricData m_c], "s2", None)
       else ([], "", Some "scroll expired"))
    [].

(** A store that serves two pages and is through. *)
Definition two_pages : ScriptStore :=
  mkScriptStore
    (fun scroll_id =>
       if decide (scroll_id = "") then
         ([MetricDefinitionFromMetricData m_a], "s1", None)
       else ([MetricDefinitionFromMetricData m_c], "", None))
    [].

(** A matcher for names without wildcards: the identifier of the name, if
    the tenant has it. *)
Definition match_literal (org : Z) (key : string) (ix : Idx) : MatchType * list Glob :=
  (MatchLiteral,
   match Idx_Get org key ix with
   | Some id => [mkGlob id key]
   | None => []
   end).

End Sample.

(** * Theorems *)

(** ** req.go *)

Lemma wrap32_small z : is_uint32 z -> wrap32 z = z.
Proof. intros Hz. unfold wrap32. apply Z.mod_small. exact Hz. Qed.

Lemma sub32_sub32 a b c : sub32 (sub32 a b) c = wrap32 (a - b - c).
Proof. unfold sub32, wrap32. apply Zminus_mod_idemp_l. Qed.

Lemma Req_span_mod {C} (r : Req C) : Req_span r = (to r - from r - 1) mod 2 ^ 32.
Proof. unfold Req_span. apply sub32_sub32. Qed.

(** C9. [NewReq] copies its six arguments into the first six fields, sets
    [archive] to -2, which is below -1 (original data) and so outside the
    documented values, and sets the four interval fields to 0. *)
Theorem NewReq_fields {C} (k : string) (f t mn mx : Z) (c : C) :
  let r := NewReq k f t mn mx c in
  key r = k /\ from r = f /\ to r = t /\ minPoints r = mn /\
  maxPoints r = mx /\ consolidator r = c /\
  archive r = -2 /\ archive r < -1 /\
  rawInterval r = 0 /\ archInterval r = 0 /\ outInterval r = 0 /\ aggNum r = 0.
Proof. cbn. repeat split; lia. Qed.

(** C10. The span [String] prints is [to - from - 1] modulo 2^32, for every
    [Req]; when [to <= from] (both uint32) the subtraction wraps and the span
    is [to - from - 1 + 2^32], which is 4294967295 when [to = from]. *)
Theorem Req_String_span_wraps {C} (CS : C -> string) (TS : Z -> string) (r : Req C) :
  Req_span r = (to r - from r - 1) mod 2 ^ 32 /\
  Req_String CS TS r =
    key r +:+ " " +:+ fmt_d (from r) +:+ " - " +:+ fmt_d (to r) +:+
    " (" +:+ TS (from r) +:+ " - " +:+ TS (to r) +:+ ") span:" +:+
    fmt_d ((to r - from r - 1) mod 2 ^ 32) +:+ "s. " +:+ fmt_d (minPoints r) +:+
    " <= points <= " +:+ fmt_d (maxPoints r) +:+ ". " +:+ CS (consolidator r) /\
  (Req_wf r -> to r <= from r ->
     Req_span r = to r - from r - 1 + 2 ^ 32 /\
     (to r = from r -> Req_span r = 4294967295)).
Proof.
  split; [apply Req_span_mod|].
  split; [unfold Req_String; now rewrite Req_span_mod|].
  intros (Hf & Ht & _) Hle. rewrite Req_span_mod.
  unfold is_uint32 in Hf, Ht.
  assert (Hwrap : (to r - from r - 1) mod 2 ^ 32 = to r - from r - 1 + 2 ^ 32).
  { symmetry. apply Z.mod_unique with (q := -1); lia. }
  split; [exact Hwrap|].
  intros Heq. rewrite Hwrap, Heq. lia.
Qed.

Lemma Req_String_span_wraps_witness :
  let r := NewReq "some.key" 1500 1500 1 800 tt in
  Req_wf r /\ to r <= from r /\
  Req_span r = 4294967295 /\
  Req_String (fun _ => "avg") (fun z => "t" +:+ pretty z) r =
    "some.key 1500 - 1500 (t1500 - t1500) span:4294967295s. 1 <= points <= 800. avg".
Proof.
  pose proof (Req_String_span_wraps (fun _ : unit => "avg") (fun z => "t" +:+ pretty z)
                (NewReq "some.key" 1500 1500 1 800 tt)) as (_ & Hs & Hw).
  assert (Hwf : Req_wf (NewReq "some.key" 1500 1500 1 800 tt)).
  { unfold Req_wf, is_uint32; cbn; lia. }
  split; [exact Hwf|]. split; [cbn; lia|].
  split; [apply (Hw Hwf); cbn; lia|].
  rewrite Hs. vm_compute. reflexivity.
Defined.

(** ** The definition cache, one caller *)

Section DefCacheFacts.

Context {Store : Type} `{!Defs Store}.

Implicit Types (w : World Store) (mdef def : MetricDefinition) (metric : MetricData).

Lemma write_throughs_app w (es : list event) :
  write_throughs (mkWorld (dc w) (metricsToEsOK w) (metricsToEsFail w) (trace w ++ es)) =
  (write_throughs w + length (List.filter is_IndexMetric es))%nat.
Proof. unfold write_throughs. cbn. now rewrite List.filter_app, length_app. Qed.

(** [addToES] calls [IndexMetric] once, counts the result and logs an error;
    it leaves the in-memory part alone. *)
Lemma addToES_ok mdef w s' :
  IndexMetric mdef (defsStore (dc w)) = (None, s') ->
  addToES mdef w =
    Ok (tt, mkWorld (mkDefCache (defs (dc w)) (ById (dc w)) (ByKey (dc w)) s')
                    (S (metricsToEsOK w)) (metricsToEsFail w)
                    (trace w ++ [EvIndexMetric mdef None])).
Proof.
  intros Hix. unfold addToES, defsStore_IndexMetric, bind, get_dc. cbn.
  rewrite Hix. reflexivity.
Qed.

Lemma addToES_err mdef w e s' :
  IndexMetric mdef (defsStore (dc w)) = (Some e, s') ->
  addToES mdef w =
    Ok (tt, mkWorld (mkDefCache (defs (dc w)) (ById (dc w)) (ByKey (dc w)) s')
                    (metricsToEsOK w) (S (metricsToEsFail w))
                    (trace w ++ [EvIndexMetric mdef (Some e); EvLogError (index_error mdef e)])).
Proof.
  intros Hix. unfold addToES, defsStore_IndexMetric, bind, get_dc. cbn.
  rewrite Hix. cbn. now rewrite <- app_assoc.
Qed.

Lemma addToES_total mdef w :
  exists w', addToES mdef w = Ok (tt, w') /\
    in_memory w' = in_memory w /\
    write_throughs w' = S (write_throughs w) /\
    (metricsToEsOK w' + metricsToEsFail w' = S (metricsToEsOK w + metricsToEsFail w))%nat.
Proof.
  destruct (IndexMetric mdef (defsStore (dc w))) as [[e|] s'] eqn:Hix.
  - eexists. split; [apply (addToES_err _ _ _ _ Hix)|].
    split; [reflexivity|]. split; [|cbn; lia].
    unfold write_throughs. cbn. rewrite List.filter_app, length_app. cbn. lia.
  - eexists. split; [apply (addToES_ok _ _ _ Hix)|].
    split; [reflexivity|]. split; [|cbn; lia].
    unfold write_throughs. cbn. rewrite List.filter_app, length_app. cbn. lia.
Qed.

Lemma with_memory_in_memory w : with_memory (in_memory w) w = w.
Proof. destruct w as [[? ? ? ?] ? ? ?]. reflexivity. Qed.

Lemma in_memory_with_memory mem w : in_memory (with_memory mem w) = mem.
Proof. destruct mem as [[? ?] ?]. reflexivity. Qed.

(** The four indexing lines, as [Backfill] has them. *)
Lemma Backfill_def_spec def w :
  Backfill_def def w = Ok (tt, with_memory (register def (in_memory w)) w).
Proof.
  unfold Backfill_def, ByKey_GetOrAdd, ByKey_AddRef, ById_store, defs_append,
    bind, get_dc, put_dc, ret, with_memory, register, in_memory. cbn.
  destruct (Idx_GetOrAdd (OrgId def) (Name def) (ByKey (dc w))) as [id ix].
  reflexivity.
Qed.


(** C4. A call of [Add] with a registered external id, whose time is more
    than 21600 seconds after the stored last-update, builds the definition
    from the metric data, calls [IndexMetric] once and puts the definition in
    the same slot: the stored last-update is then the time of the call, and
    the identity map and the pattern index are as before.  The check under
    the exclusive lock reads the value stored at that moment: when that value
    is fresh, the locked region changes nothing. *)
Theorem Add_stale_refreshes metric w id def :
  ById (dc w) !! md_Id metric = Some id ->
  defs (dc w) !! id = Some def ->
  LastUpdate def < md_Time metric - 21600 ->
  let mdef := MetricDefinitionFromMetricData metric in
  (exists w' err,
     Add metric w = Ok (tt, w') /\
     defs (dc w') = <[id := mdef]> (defs (dc w)) /\
     defs (dc w') !! id = Some mdef /\
     LastUpdate mdef = md_Time metric /\
     ById (dc w') = ById (dc w) /\
     ByKey (dc w') = ByKey (dc w) /\
     trace w' = trace w ++ EvIndexMetric mdef err ::
                  match err with
                  | Some e => [EvLogError (index_error mdef e)]
                  | None => []
                  end /\
     write_throughs w' = S (write_throughs w)) /\
  (forall w1 old,
     defs (dc w1) !! id = Some old ->
     LastUpdate old >= md_Time metric - 21600 ->
     Add_refresh metric id mdef w1 = Ok (tt, w1)).
Proof.
  intros Hid Hdef Hstale mdef. split.
  - assert (Hlt : (id < length (defs (dc w)))%nat) by (eapply lookup_lt_Some; eauto).
    assert (Hst : stale def metric = true) by (unfold stale; apply Z.ltb_lt; lia).
    unfold Add, Add_lookup, Add_read, Add_refresh, ById_lookup, defs_index, bind,
      get_dc, ret.
    cbn. rewrite Hid. cbn. rewrite Hdef, Hst. cbn. rewrite Hdef, Hst.
    fold mdef.
    destruct (IndexMetric mdef (defsStore (dc w))) as [err s'] eqn:Hix.
    destruct err as [e|].
    + rewrite (addToES_err _ _ _ _ Hix). unfold defs_assign, bind, get_dc, put_dc. cbn.
      destruct (decide (id < length (defs (dc w)))%nat); [|lia].
      eexists _, (Some e). split; [reflexivity|]. cbn.
      repeat split; try reflexivity.
      * now apply list_lookup_insert_eq.
      * unfold write_throughs. cbn. rewrite List.filter_app, length_app. cbn. lia.
    + rewrite (addToES_ok _ _ _ Hix). unfold defs_assign, bind, get_dc, put_dc. cbn.
      destruct (decide (id < length (defs (dc w)))%nat); [|lia].
      eexists _, None. split; [reflexivity|]. cbn.
      repeat split; try reflexivity.
      * now apply list_lookup_insert_eq.
      * unfold write_throughs. cbn. rewrite List.filter_app, length_app. cbn. lia.
  - intros w1 old Hold Hfresh.
    unfold Add_refresh, defs_index, bind, get_dc, ret. cbn. rewrite Hold.
    unfold stale. destruct (Z.ltb_spec (LastUpdate old) (md_Time metric - 21600)); [lia|].
    reflexivity.
Qed.

(** C5. The creation region of [Add], entered with the exclusive lock held.
    When the external id is registered by then, the region changes nothing.
    Otherwise it calls [IndexMetric] once, takes the identifier [GetOrAdd]
    gives for the tenant and the name, adds a reference for it, registers
    the external id under it and appends the definition.  A call of [Add]
    that finds the id unregistered at its first lookup runs that region. *)
Theorem Add_create_spec metric w :
  let mdef := MetricDefinitionFromMetricData metric in
  match ById (dc w) !! md_Id metric with
  | Some _ => Add_create metric mdef w = Ok (tt, w)
  | None =>
      Add metric w = Add_create metric mdef w /\
      exists err s' id ix w',
        IndexMetric mdef (defsStore (dc w)) = (err, s') /\
        Idx_GetOrAdd (md_OrgId metric) (md_Name metric) (ByKey (dc w)) = (id, ix) /\
        Add_create metric mdef w = Ok (tt, w') /\
        defs (dc w') = defs (dc w) ++ [mdef] /\
        ById (dc w') = <[md_Id metric := id]> (ById (dc w)) /\
        ByKey (dc w') = Idx_AddRef (md_OrgId metric) id ix /\
        defsStore (dc w') = s' /\
        trace w' = trace w ++ EvIndexMetric mdef err ::
                     match err with
                     | Some e => [EvLogError (index_error mdef e)]
                     | None => []
                     end /\
        write_throughs w' = S (write_throughs w)
  end.
Proof.
  intros mdef.
  destruct (ById (dc w) !! md_Id metric) as [id0|] eqn:Hid.
  - unfold Add_create, ById_lookup, bind, get_dc, ret. cbn. now rewrite Hid.
  - split.
    { subst mdef. unfold Add. cbv zeta.
      generalize (Add_create metric (MetricDefinitionFromMetricData metric)). intros c.
      unfold Add_lookup, ById_lookup, bind, get_dc, ret. cbn. now rewrite Hid. }
    destruct (IndexMetric mdef (defsStore (dc w))) as [err s'] eqn:Hix.
    destruct (Idx_GetOrAdd (md_OrgId metric) (md_Name metric) (ByKey (dc w)))
      as [id ix] eqn:Hgoa.
    exists err, s', id, ix.
    unfold Add_create, ById_lookup, bind, get_dc, ret. cbn. rewrite Hid.
    destruct err as [e|].
    + rewrite (addToES_err _ _ _ _ Hix).
      unfold ByKey_GetOrAdd, ByKey_AddRef, ById_store, defs_append, bind, get_dc,
        put_dc, ret. cbn. rewrite Hgoa. cbn.
      eexists. repeat split; try reflexivity.
      unfold write_throughs. cbn. rewrite List.filter_app, length_app. cbn. lia.
    + rewrite (addToES_ok _ _ _ Hix).
      unfold ByKey_GetOrAdd, ByKey_AddRef, ById_store, defs_append, bind, get_dc,
        put_dc, ret. cbn. rewrite Hgoa. cbn.
      eexists. repeat split; try reflexivity.
      unfold write_throughs. cbn. rewrite List.filter_app, length_app. cbn. lia.
Qed.

(** The creation region is the write-through followed by the four indexing
    lines. *)
Lemma Add_create_unfold metric mdef w :
  Add_create metric mdef w =
    match ById (dc w) !! md_Id metric with
    | Some _ => Ok (tt, w)
    | None =>
        match addToES mdef w with
        | Ok (_, w1) => Backfill_def mdef w1
        | Panic => Panic
        | OutOfFuel => OutOfFuel
        end
    end.
Proof.
  unfold Add_create, ById_lookup, bind at 1 2, get_dc, ret.
  destruct (ById (dc w) !! md_Id metric); reflexivity.
Qed.

(** The in-memory part after the creation region is a function of the
    in-memory part before: the store and its answers have no say in it. *)
Lemma Add_create_in_memory metric mdef w :
  exists w', Add_create metric mdef w = Ok (tt, w') /\
    in_memory w' =
      match ById (dc w) !! md_Id metric with
      | Some _ => in_memory w
      | None => register mdef (in_memory w)
      end /\
    write_throughs w' =
      match ById (dc w) !! md_Id metric with
      | Some _ => write_throughs w
      | None => S (write_throughs w)
      end.
Proof.
  rewrite Add_create_unfold.
  destruct (ById (dc w) !! md_Id metric) as [id0|] eqn:Hid.
  - eexists; split; [reflexivity|]. split; reflexivity.
  - destruct (addToES_total mdef w) as (w1 & Hes & Hmem & Hwt & _).
    rewrite Hes, Backfill_def_spec.
    eexists; split; [reflexivity|].
    split; [now rewrite in_memory_with_memory, Hmem|exact Hwt].
Qed.

Lemma Add_refresh_unfold metric id mdef w :
  Add_refresh metric id mdef w =
    match defs (dc w) !! id with
    | None => Panic
    | Some old =>
        if stale old metric then
          match addToES mdef w with
          | Ok (_, w1) => defs_assign id mdef w1
          | Panic => Panic
          | OutOfFuel => OutOfFuel
          end
        else Ok (tt, w)
    end.
Proof.
  unfold Add_refresh, defs_index, bind at 1 2, get_dc, ret.
  destruct (defs (dc w) !! id) as [old|]; [|reflexivity].
  unfold bind. destruct (stale old metric); reflexivity.
Qed.

Lemma Add_unfold metric w :
  Add metric w =
    match ById (dc w) !! md_Id metric with
    | Some id =>
        match defs (dc w) !! id with
        | None => Panic
        | Some def =>
            if stale def metric
            then Add_refresh metric id (MetricDefinitionFromMetricData metric) w
            else Ok (tt, w)
        end
    | None => Add_create metric (MetricDefinitionFromMetricData metric) w
    end.
Proof.
  unfold Add, Add_lookup, Add_read, ById_lookup, defs_index, bind at 1 2, get_dc, ret.
  destruct (ById (dc w) !! md_Id metric) as [id|]; [|reflexivity].
  unfold bind. destruct (defs (dc w) !! id) as [def|]; [|reflexivity].
  destruct (stale def metric); reflexivity.
Qed.

Lemma defs_assign_spec id mdef w :
  (id < length (defs (dc w)))%nat ->
  defs_assign id mdef w =
    Ok (tt, with_memory (<[id := mdef]> (defs (dc w)), ById (dc w), ByKey (dc w)) w).
Proof.
  intros Hlt. unfold defs_assign, bind, get_dc, put_dc.
  destruct (decide (id < length (defs (dc w)))%nat); [reflexivity|lia].
Qed.

(** The refresh region: a panic when the slot does not exist; otherwise the
    slot is overwritten exactly when the stored value is stale. *)
Lemma Add_refresh_in_memory metric id mdef w old :
  defs (dc w) !! id = Some old ->
  exists w', Add_refresh metric id mdef w = Ok (tt, w') /\
    in_memory w' =
      (if stale old metric then <[id := mdef]> (defs (dc w)) else defs (dc w),
       ById (dc w), ByKey (dc w)) /\
    write_throughs w' =
      (if stale old metric then S (write_throughs w) else write_throughs w).
Proof.
  intros Hold. rewrite Add_refresh_unfold, Hold.
  destruct (stale old metric).
  - destruct (addToES_total mdef w) as (w1 & Hes & Hmem & Hwt & _).
    rewrite Hes.
    injection Hmem as Hd Hi Hk.
    rewrite defs_assign_spec by (rewrite Hd; eapply lookup_lt_Some; eauto).
    eexists; split; [reflexivity|].
    rewrite in_memory_with_memory, Hd, Hi, Hk. split; [reflexivity|exact Hwt].
  - eexists; split; [reflexivity|]. split; reflexivity.
Qed.


(** *** Backfill *)

Lemma bind_Ok {A B} (c : M Store A) (k : A -> M Store B) w a w' :
  c w = Ok (a, w') -> bind c k w = k a w'.
Proof. intros Hc. unfold bind. now rewrite Hc. Qed.

Lemma for_range_Backfill_def (l : list MetricDefinition) w :
  for_range l Backfill_def w =
    Ok (tt, with_memory (foldl (fun mem def => register def mem) (in_memory w) l) w).
Proof.
  revert w. induction l as [|def l IH]; intros w; cbn [for_range foldl].
  - unfold ret. now rewrite with_memory_in_memory.
  - rewrite (bind_Ok _ _ _ _ _ (Backfill_def_spec def w)), IH.
    now rewrite in_memory_with_memory.
Qed.

Lemma Backfill_add_spec total (met : list MetricDefinition) w :
  Backfill_add total met w =
    Ok (total + Z.of_nat (length met),
        with_memory (foldl (fun mem def => register def mem) (in_memory w) met) w).
Proof.
  unfold Backfill_add. destruct (decide (0 < length met)%nat) as [Hpos|Hnil].
  - now rewrite (bind_Ok _ _ _ _ _ (for_range_Backfill_def met w)).
  - destruct met; [|cbn in Hnil; lia]. cbn. unfold ret.
    now rewrite with_memory_in_memory, Z.add_0_r.
Qed.

Lemma defsStore_GetMetrics_spec scroll_id w r s' :
  GetMetrics scroll_id (defsStore (dc w)) = (r, s') ->
  defsStore_GetMetrics scroll_id w =
    Ok (r, mkWorld (mkDefCache (defs (dc w)) (ById (dc w)) (ByKey (dc w)) s')
                   (metricsToEsOK w) (metricsToEsFail w)
                   (trace w ++ [EvGetMetrics scroll_id])).
Proof.
  intros Hget. unfold defsStore_GetMetrics, bind, get_dc. now rewrite Hget.
Qed.

Lemma register_defs def mem : (register def mem).1.1 = mem.1.1 ++ [def].
Proof.
  destruct mem as [[ds bi] bk]. unfold register.
  now destruct (Idx_GetOrAdd (OrgId def) (Name def) bk).
Qed.

Lemma foldl_register_defs (l : list MetricDefinition) mem :
  (foldl (fun mem def => register def mem) mem l).1.1 = mem.1.1 ++ l.
Proof.
  revert mem. induction l as [|def l IH]; intros mem; cbn [foldl].
  - now rewrite app_nil_r.
  - rewrite IH, register_defs, <- app_assoc. reflexivity.
Qed.

(** The loop of [Backfill], entered with a scroll id that is not empty, when
    the store serves the pages [pgs] and then fails. *)
Lemma Backfill_loop_fetch_error pgs : forall w total c ce e s'' fuel,
  c <> "" ->
  fetches (defsStore (dc w)) c pgs ce e s'' ->
  (length pgs < fuel)%nat ->
  exists w',
    Backfill_loop fuel total c w = Ok (tt, w') /\
    in_memory w' = foldl (fun mem def => register def mem) (in_memory w) (concat pgs.*2) /\
    trace w' = trace w ++ (EvGetMetrics <$> (pgs.*1 ++ [ce])) ++ [EvLogError (backfill_error e)] /\
    defsStore (dc w') = s'' /\
    metricsToEsOK w' = metricsToEsOK w /\
    metricsToEsFail w' = metricsToEsFail w.
Proof.
  induction pgs as [|[c0 met] pgs IH]; intros w total c ce e s'' fuel Hc Hf Hfuel.
  - inversion Hf as [s0 c1 met sc e0 s1 Hget|]; subst.
    destruct fuel as [|fuel]; [cbn in Hfuel; lia|]. cbn [Backfill_loop].
    destruct (decide (ce = "")) as [->|_]; [congruence|].
    rewrite (bind_Ok _ _ _ _ _ (defsStore_GetMetrics_spec _ _ _ _ Hget)).
    unfold log_Error, emit. cbn.
    eexists. split; [reflexivity|]. cbn. rewrite <- app_assoc. repeat split.
  - inversion Hf as [|s0 c1 met1 sc s1 pgs1 ce1 e1 s2 Hget Hsc Hrest]; subst.
    destruct fuel as [|fuel]; [cbn in Hfuel; lia|]. cbn [Backfill_loop].
    destruct (decide (c0 = "")) as [->|_]; [congruence|].
    rewrite (bind_Ok _ _ _ _ _ (defsStore_GetMetrics_spec _ _ _ _ Hget)).
    cbv beta iota.
    rewrite (bind_Ok _ _ _ _ _ (Backfill_add_spec _ _ _)).
    match goal with |- context [Backfill_loop fuel ?t sc ?w1] =>
      destruct (IH w1 t sc ce e s'' fuel Hsc) as (w' & Hrun & Hmem & Htr & Hst & Hok & Hfail)
    end.
    { exact Hrest. }
    { cbn in Hfuel. lia. }
    exists w'. split; [exact Hrun|].
    rewrite Hmem, Htr, Hst, Hok, Hfail, in_memory_with_memory. cbn.
    rewrite foldl_app, <- !app_assoc. repeat split.
Qed.

(** C7. When the store serves some pages and then fails, [Backfill] ends
    (given as many loop iterations as there are pages): it has asked for the
    pages before the failing one and for the failing one, and for none after
    it; it has logged the error; the cache holds the definitions of the
    pages before the failing one, indexed in order, and nothing else has
    been added or taken back. *)
Theorem Backfill_fetch_error w pgs ce e s'' fuel :
  fetches (defsStore (dc w)) "" pgs ce e s'' ->
  (length pgs <= fuel)%nat ->
  exists w',
    Backfill fuel w = Ok (tt, w') /\
    in_memory w' = foldl (fun mem def => register def mem) (in_memory w) (concat pgs.*2) /\
    defs (dc w') = defs (dc w) ++ concat pgs.*2 /\
    trace w' = trace w ++ (EvGetMetrics <$> (pgs.*1 ++ [ce])) ++ [EvLogError (backfill_error e)] /\
    defsStore (dc w') = s'' /\
    metricsToEsOK w' = metricsToEsOK w /\
    metricsToEsFail w' = metricsToEsFail w.
Proof.
  intros Hf Hfuel.
  assert (Hgoal : exists w',
    Backfill fuel w = Ok (tt, w') /\
    in_memory w' = foldl (fun mem def => register def mem) (in_memory w) (concat pgs.*2) /\
    trace w' = trace w ++ (EvGetMetrics <$> (pgs.*1 ++ [ce])) ++ [EvLogError (backfill_error e)] /\
    defsStore (dc w') = s'' /\
    metricsToEsOK w' = metricsToEsOK w /\
    metricsToEsFail w' = metricsToEsFail w).
  { unfold Backfill.
    inversion Hf as [s0 c1 met sc e0 s1 Hget|s0 c1 met1 sc s1 pgs1 ce1 e1 s2 Hget Hsc Hrest];
      subst.
    - rewrite (bind_Ok _ _ _ _ _ (defsStore_GetMetrics_spec _ _ _ _ Hget)).
      unfold log_Error, emit. cbn.
      eexists. split; [reflexivity|]. cbn. rewrite <- app_assoc. repeat split.
    - rewrite (bind_Ok _ _ _ _ _ (defsStore_GetMetrics_spec _ _ _ _ Hget)).
      cbv beta iota.
      rewrite (bind_Ok _ _ _ _ _ (Backfill_add_spec _ _ _)).
      match goal with |- context [Backfill_loop fuel ?t sc ?w1] =>
        destruct (Backfill_loop_fetch_error pgs1 w1 t sc ce e s'' fuel Hsc)
          as (w' & Hrun & Hmem & Htr & Hst & Hok & Hfail)
      end.
      { exact Hrest. }
      { cbn in Hfuel. lia. }
      exists w'. split; [exact Hrun|].
      rewrite Hmem, Htr, Hst, Hok, Hfail, in_memory_with_memory. cbn.
      rewrite foldl_app, <- !app_assoc. repeat split. }
  destruct Hgoal as (w' & Hrun & Hmem & Hrest).
  exists w'. split; [exact Hrun|]. split; [exact Hmem|]. split; [|exact Hrest].
  change (defs (dc w')) with (in_memory w').1.1.
  now rewrite Hmem, foldl_register_defs.
Qed.
End DefCacheFacts.

(** The scenario of the specification: the first [Add] of id abc creates the
    definition with last-update [T]; a second at [T+100] changes nothing; a
    third at [T+30000] refreshes the slot with one more write-through. *)
Example scenario_first_Add :
  Add (Sample.host_cpu Sample.T) (New_world Sample.store_ok) = Ok (tt, Sample.w_abc).
Proof. vm_compute. reflexivity. Qed.

Example scenario_Get :
  Get "abc" Sample.w_abc =
    Ok (Some (mkMetricDefinition "abc" 1 "host.cpu" Sample.T), Sample.w_abc).
Proof. vm_compute. reflexivity. Qed.

Example scenario_second_Add :
  Add (Sample.host_cpu (Sample.T + 100)) Sample.w_abc = Ok (tt, Sample.w_abc).
Proof. vm_compute. reflexivity. Qed.

Example scenario_third_Add :
  exists w',
    Add (Sample.host_cpu (Sample.T + 30000)) Sample.w_abc = Ok (tt, w') /\
    defs (dc w') = [mkMetricDefinition "abc" 1 "host.cpu" (Sample.T + 30000)] /\
    write_throughs w' = S (write_throughs Sample.w_abc).
Proof. eexists. split; [vm_compute; reflexivity|]. split; reflexivity. Qed.


Lemma Add_stale_refreshes_witness :
  let metric := Sample.host_cpu (Sample.T + 30000) in
  let def := MetricDefinitionFromMetricData (Sample.host_cpu Sample.T) in
  ById (dc Sample.w_abc) !! md_Id metric = Some 0%nat /\
  defs (dc Sample.w_abc) !! 0%nat = Some def /\
  LastUpdate def < md_Time metric - 21600 /\
  exists w',
    Add metric Sample.w_abc = Ok (tt, w') /\
    defs (dc w') !! 0%nat = Some (MetricDefinitionFromMetricData metric) /\
    write_throughs w' = S (write_throughs Sample.w_abc).
Proof.
  assert (H1 : ById (dc Sample.w_abc) !! md_Id (Sample.host_cpu (Sample.T + 30000)) = Some 0%nat)
    by reflexivity.
  assert (H2 : defs (dc Sample.w_abc) !! 0%nat =
               Some (MetricDefinitionFromMetricData (Sample.host_cpu Sample.T)))
    by reflexivity.
  assert (H3 : LastUpdate (MetricDefinitionFromMetricData (Sample.host_cpu Sample.T)) <
               md_Time (Sample.host_cpu (Sample.T + 30000)) - 21600)
    by (vm_compute; reflexivity).
  split; [exact H1|]. split; [exact H2|]. split; [exact H3|].
  destruct (Add_stale_refreshes _ _ _ _ H1 H2 H3)
    as [(w' & err & Hrun & _ & Hslot & _ & _ & _ & _ & Hwt) _].
  exists w'. split; [exact Hrun|]. split; [exact Hslot|exact Hwt].
Defined.


Lemma Backfill_fetch_error_witness :
  let w := New_world Sample.two_pages_then_error in
  let pgs := [("", [MetricDefinitionFromMetricData Sample.m_a]);
              ("s1", [MetricDefinitionFromMetricData Sample.m_c])] in
  fetches (defsStore (dc w)) "" pgs "s2" "scroll expired" Sample.two_pages_then_error /\
  (length pgs <= 2)%nat /\
  exists w',
    Backfill 2 w = Ok (tt, w') /\
    defs (dc w') = [MetricDefinitionFromMetricData Sample.m_a;
                    MetricDefinitionFromMetricData Sample.m_c] /\
    trace w' = [EvGetMetrics ""; EvGetMetrics "s1"; EvGetMetrics "s2";
                EvLogError "Could not backfill from ES: scroll expired"].
Proof.
  assert (Hf : fetches (defsStore (dc (New_world Sample.two_pages_then_error))) ""
                 [("", [MetricDefinitionFromMetricData Sample.m_a]);
                  ("s1", [MetricDefinitionFromMetricData Sample.m_c])]
                 "s2" "scroll expired" Sample.two_pages_then_error).
  { eapply fetches_page; [reflexivity|discriminate|].
    eapply fetches_page; [reflexivity|discriminate|].
    eapply fetches_error. reflexivity. }
  assert (Hfuel : (length [("", [MetricDefinitionFromMetricData Sample.m_a]);
                           ("s1", [MetricDefinitionFromMetricData Sample.m_c])] <= 2)%nat)
    by (cbn; lia).
  split; [exact Hf|]. split; [exact Hfuel|].
  destruct (Backfill_fetch_error _ _ _ _ _ _ Hf Hfuel)
    as (w' & Hrun & _ & Hdefs & Htr & _).
  exists w'. split; [exact Hrun|]. split; [exact Hdefs|exact Htr].
Defined.

(** ** Position and identifier *)

(** C1. Three calls of [Add] on the empty cache: series a and b have the
    same tenant and name under two external ids, series c has a name of its
    own.  [GetOrAdd] gives b the identifier 0 of a, and gives c the
    identifier 1; the definitions were appended at positions 0, 1 and 2.
    In the world reached, position 1, the identifier allocated for name y,
    holds the definition of b, whose name is x, and [Get] of c answers with
    it: [position_is_id] does not hold there. *)
Theorem Add_shared_name_breaks_position :
  exists w',
    Add_each [Sample.m_a; Sample.m_b; Sample.m_c] (New_world Sample.store_ok) = Ok (tt, w') /\
    reachable w' /\
    revkeys (ByKey (dc w')) = [(1, "x"); (1, "y")] /\
    ById (dc w') !! "c" = Some 1%nat /\
    defs (dc w') !! 1%nat = Some (MetricDefinitionFromMetricData Sample.m_b) /\
    defs (dc w') !! 2%nat = Some (MetricDefinitionFromMetricData Sample.m_c) /\
    Get "c" w' = Ok (Some (mkMetricDefinition "b" 1 "x" Sample.T), w') /\
    ~ position_is_id (dc w').
Proof.
  eexists. split; [vm_compute; reflexivity|].
  split.
  { pose proof (reach_New Sample.store_ok) as Hreach.
    reach_Add_from Hreach Sample.m_a.
    reach_Add_from Hreach Sample.m_b.
    reach_Add_from Hreach Sample.m_c.
    exact Hreach. }
  do 5 (split; [vm_compute; reflexivity|]).
  intros Hpos. destruct (Hpos 1%nat 1 "y" eq_refl) as (def & Hdef & _ & Hname).
  vm_compute in Hdef. injection Hdef as <-. discriminate Hname.
Qed.

(** ** Concurrent callers *)

Section Interleavings.

Context {Store : Type} `{!Defs Store}.

Implicit Types (w : World Store) (mdef def : MetricDefinition) (metric m : MetricData)
  (p : pool) (c : pc).

(** What one step of a caller does, place by place. *)
Lemma thread_step_AtLookup m w :
  thread_step m AtLookup w =
    Ok (match ById (dc w) !! md_Id m with
        | Some id => AtRead id
        | None => AtCreate (MetricDefinitionFromMetricData m)
        end, w).
Proof. reflexivity. Qed.

Lemma thread_step_AtRead m id w def :
  defs (dc w) !! id = Some def ->
  thread_step m (AtRead id) w =
    Ok (if stale def m then AtRefresh id (MetricDefinitionFromMetricData m)
        else Done Fresh, w).
Proof.
  intros Hdef. unfold thread_step, Add_read, defs_index, bind, get_dc, ret.
  now rewrite Hdef.
Qed.



Lemma thread_step_Done m o w : thread_step m (Done o) w = Ok (Done o, w).
Proof. reflexivity. Qed.






(** *** Callers racing to refresh *)


Lemma stale_false def m : stale def m = false <-> md_Time m - 21600 <= LastUpdate def.
Proof. unfold stale. apply Z.ltb_ge. Qed.



(** The callers keep their arguments. *)
Lemma pool_step_metrics i p w p' w' :
  pool_step i p w = Ok (p', w') -> p'.*1 = p.*1.
Proof.
  unfold pool_step. destruct (p !! i) as [[m c]|] eqn:Hi.
  - unfold bind, ret. destruct (thread_step m c w) as [[c' w1]| |]; try discriminate.
    intros [= <- <-]. rewrite list_fmap_insert. cbn.
    apply list_insert_id. now rewrite list_lookup_fmap, Hi.
  - unfold ret. now intros [= <- <-].
Qed.

Lemma run_metrics sched : forall p w p' w',
  run sched p w = Ok (p', w') -> p'.*1 = p.*1.
Proof.
  induction sched as [|i sched IH]; intros p w p' w'; cbn [run].
  - unfold ret. now intros [= <- <-].
  - unfold bind. destruct (pool_step i p w) as [[p1 w1]| |] eqn:Hstep; try discriminate.
    intros Hrun. rewrite (IH _ _ _ _ Hrun). eapply pool_step_metrics; eauto.
Qed.

Lemma spawn_metrics ms : (spawn ms).*1 = ms.
Proof. unfold spawn. induction ms as [|m ms IH]; [reflexivity|]. cbn. now rewrite IH. Qed.



(** *** Identifiers stay in range *)

Lemma Idx_Get_lt org name ix id :
  Idx_Get org name ix = Some id -> (id < length (revkeys ix))%nat.
Proof.
  unfold Idx_Get. destruct (list_find _ (revkeys ix)) as [[i k]|] eqn:Hfind; [|discriminate].
  cbn. intros [= <-]. apply list_find_Some in Hfind as (Hlk & _).
  eapply lookup_lt_Some; eauto.
Qed.

Lemma Idx_GetOrAdd_range org name ix id ix' :
  Idx_GetOrAdd org name ix = (id, ix') ->
  (id < length (revkeys ix'))%nat /\
  (length (revkeys ix) <= length (revkeys ix') <= S (length (revkeys ix)))%nat.
Proof.
  unfold Idx_GetOrAdd. destruct (Idx_Get org name ix) as [id0|] eqn:Hget.
  - intros [= <- <-]. split; [eapply Idx_Get_lt; eauto|lia].
  - intros [= <- <-]. cbn. rewrite length_app. cbn. lia.
Qed.

(** The indexing lines keep every registered identifier in range, register
    the external id of the definition, keep the other registrations, and
    append to [defs]. *)
Lemma register_in_range def w w' :
  in_range (dc w) ->
  in_memory w' = register def (in_memory w) ->
  in_range (dc w') /\
  defs (dc w') = defs (dc w) ++ [def] /\
  is_Some (ById (dc w') !! Id def) /\
  (forall k, k <> Id def -> ById (dc w') !! k = ById (dc w) !! k).
Proof.
  intros [Hlen Hids]. unfold in_memory, register.
  destruct (Idx_GetOrAdd (OrgId def) (Name def) (ByKey (dc w))) as [id ix] eqn:Hgoa.
  intros [= Hd Hi Hk].
  destruct (Idx_GetOrAdd_range _ _ _ _ _ Hgoa) as (Hid & Hgrow).
  split; [|split; [exact Hd|split]].
  - split.
    + rewrite Hk, Hd, length_app. cbn. lia.
    + intros k id' Hlk. rewrite Hk. cbn. rewrite Hi in Hlk.
      destruct (decide (k = Id def)) as [->|Hne].
      * rewrite lookup_insert_eq in Hlk. now injection Hlk as <-.
      * rewrite lookup_insert_ne in Hlk by congruence.
        specialize (Hids _ _ Hlk). lia.
  - rewrite Hi, lookup_insert_eq. eauto.
  - intros k Hne. rewrite Hi. now apply lookup_insert_ne.
Qed.

Lemma in_range_lookup w k id :
  in_range (dc w) -> ById (dc w) !! k = Some id -> is_Some (defs (dc w) !! id).
Proof.
  intros [Hlen Hids] Hlk. apply lookup_lt_is_Some. specialize (Hids _ _ Hlk). lia.
Qed.

(** The cache that [New] builds is in range. *)
Lemma New_world_in_range (s : Store) : in_range (dc (New_world s)).
Proof. split; [reflexivity|]. intros k id Hlk. cbn in Hlk. now rewrite lookup_empty in Hlk. Qed.

Lemma Backfill_add_in_range total met w total' w' :
  in_range (dc w) -> Backfill_add total met w = Ok (total', w') -> in_range (dc w').
Proof.
  rewrite Backfill_add_spec. intros Hr [= _ <-]. clear total total'.
  revert w Hr. induction met as [|def met IH]; intros w Hr; cbn [foldl].
  - now rewrite with_memory_in_memory.
  - specialize (IH (with_memory (register def (in_memory w)) w)).
    rewrite in_memory_with_memory in IH.
    destruct (register_in_range def w (with_memory (register def (in_memory w)) w) Hr)
      as [Hr' _]; [now rewrite in_memory_with_memory|].
    specialize (IH Hr'). destruct IH as [Hlen Hids]. split; [exact Hlen|exact Hids].
Qed.

(** A call of [Add] that returns leaves the identifiers in range. *)
Lemma Add_keeps_in_range m w w' :
  in_range (dc w) -> Add m w = Ok (tt, w') -> in_range (dc w').
Proof.
  intros Hr. rewrite Add_unfold.
  destruct (ById (dc w) !! md_Id m) as [id|] eqn:Hid.
  - destruct (in_range_lookup _ _ _ Hr Hid) as [def Hdef]. rewrite Hdef.
    destruct (stale def m) eqn:Hst; [|now intros [= <-]].
    destruct (Add_refresh_in_memory m id (MetricDefinitionFromMetricData m) w def Hdef)
      as (w1 & Hrun & Hmem & _).
    rewrite Hrun. intros [= <-]. rewrite Hst in Hmem. injection Hmem as Hd Hi Hk.
    destruct Hr as [Hlen Hids]. split.
    + now rewrite Hk, Hd, length_insert.
    + intros k id' Hlk. rewrite Hk. rewrite Hi in Hlk. eauto.
  - destruct (Add_create_in_memory m (MetricDefinitionFromMetricData m) w)
      as (w1 & Hrun & Hmem & _).
    rewrite Hrun. intros [= <-]. rewrite Hid in Hmem.
    now destruct (register_in_range _ _ _ Hr Hmem).
Qed.

(** X1. From a cache whose identifiers are in range, [Add] returns, with
    no panic, and leaves the cache in range. *)
Lemma Add_in_range m w :
  in_range (dc w) -> exists w', Add m w = Ok (tt, w') /\ in_range (dc w').
Proof.
  intros Hr. rewrite Add_unfold.
  destruct (ById (dc w) !! md_Id m) as [id|] eqn:Hid.
  - destruct (in_range_lookup _ _ _ Hr Hid) as [def Hdef]. rewrite Hdef.
    destruct (stale def m); [|eauto].
    destruct (Add_refresh_in_memory m id (MetricDefinitionFromMetricData m) w def Hdef)
      as (w' & Hrun & Hmem & _).
    exists w'. split; [exact Hrun|]. injection Hmem as Hd Hi Hk.
    destruct Hr as [Hlen Hids]. split.
    + rewrite Hk, Hd. destruct (stale def m); [rewrite length_insert|]; exact Hlen.
    + intros k id' Hlk. rewrite Hk. rewrite Hi in Hlk. eauto.
  - destruct (Add_create_in_memory m (MetricDefinitionFromMetricData m) w)
      as (w' & Hrun & Hmem & _).
    rewrite Hid in Hmem. exists w'. split; [exact Hrun|].
    now destruct (register_in_range _ _ _ Hr Hmem).
Qed.

(** Every world the program reaches has its identifiers in range. *)
Lemma reachable_in_range w : reachable w -> in_range (dc w).
Proof.
  induction 1 as [s|total met w total' w' _ IH Hrun|metric w w' _ IH Hrun].
  - apply New_world_in_range.
  - eapply Backfill_add_in_range; eauto.
  - eapply Add_keeps_in_range; eauto.
Qed.

(** *** Callers racing to create *)










End Interleavings.




(** ** The steps and the call *)

Section Alone.

Context {Store : Type} `{!Defs Store}.

Implicit Types (w : World Store) (m : MetricData) (c : pc).


Lemma thread_step_AtRefresh_run m id mdef w old :
  defs (dc w) !! id = Some old ->
  thread_step m (AtRefresh id mdef) w =
    match Add_refresh m id mdef w with
    | Ok (_, w') => Ok (Done (if stale old m then Refreshed else RefreshSkipped), w')
    | Panic => Panic
    | OutOfFuel => OutOfFuel
    end.
Proof.
  intros Hold. unfold thread_step. generalize (Add_refresh m id mdef). intros r.
  unfold defs_index, bind, get_dc, ret. cbn. rewrite Hold.
  now destruct (r w) as [[[] w']| |].
Qed.

Lemma thread_step_AtCreate_run m mdef w :
  thread_step m (AtCreate mdef) w =
    match Add_create m mdef w with
    | Ok (_, w') =>
        Ok (Done (match ById (dc w) !! md_Id m with
                  | Some _ => Abandoned
                  | None => Created
                  end), w')
    | Panic => Panic
    | OutOfFuel => OutOfFuel
    end.
Proof.
  unfold thread_step. generalize (Add_create m mdef). intros r.
  unfold ById_lookup, bind, get_dc, ret. cbn.
  now destruct (r w) as [[[] w']| |].
Qed.


(** Go's int64 subtraction wraps; on the times for which [metric.Time-21600]
    does not wrap, the staleness test on int64 is the test on integers. *)
Lemma stale_int64_agrees def m :
  - 2 ^ 63 + 21600 <= md_Time m < 2 ^ 63 ->
  stale_int64 def m = stale def m.
Proof.
  intros Hrange. unfold stale_int64, stale, wrap64.
  replace ((md_Time m - 21600 + 2 ^ 63) mod 2 ^ 64) with (md_Time m - 21600 + 2 ^ 63).
  - f_equal. lia.
  - symmetry. apply Z.mod_small. lia.
Qed.

(** *** Every caller returns *)

(** The number of locked regions a caller may still have to run. *)
Lemma thread_step_remaining m c w c' w' :
  thread_step m c w = Ok (c', w') -> (remaining c' <= pred (remaining c))%nat.
Proof.
  destruct c as [|id|id mdef|mdef|o].
  - rewrite thread_step_AtLookup. intros [= <- _].
    destruct (ById (dc w) !! md_Id m); cbn; lia.
  - destruct (defs (dc w) !! id) as [def|] eqn:Hdef.
    + rewrite (thread_step_AtRead m id w def Hdef). intros [= <- _].
      destruct (stale def m); cbn; lia.
    + unfold thread_step, Add_read, defs_index, bind, get_dc. cbn. now rewrite Hdef.
  - destruct (defs (dc w) !! id) as [old|] eqn:Hold.
    + rewrite (thread_step_AtRefresh_run m id mdef w old Hold).
      destruct (Add_refresh m id mdef w) as [[[] w1]| |]; [|discriminate..].
      intros [= <- _]. cbn. lia.
    + unfold thread_step, defs_index, bind, get_dc. cbn. now rewrite Hold.
  - rewrite thread_step_AtCreate_run.
    destruct (Add_create m mdef w) as [[[] w1]| |]; [|discriminate..].
    intros [= <- _]. cbn. lia.
  - rewrite thread_step_Done. intros [= <- _]. cbn. lia.
Qed.

Lemma run_remaining sched : forall (p : pool) w p' w',
  run sched p w = Ok (p', w') ->
  forall i m c, p !! i = Some (m, c) ->
    exists c', p' !! i = Some (m, c') /\
      (remaining c' <= remaining c - count_occ Nat.eq_dec sched i)%nat.
Proof.
  induction sched as [|j sched IH]; intros p w p' w'; cbn [run].
  - unfold ret. intros [= <- _] i m c Hi. exists c. split; [exact Hi|]. cbn. lia.
  - unfold bind. destruct (pool_step j p w) as [[p1 w1]| |] eqn:Hstep; try discriminate.
    intros Hrun i m c Hi.
    unfold pool_step in Hstep.
    destruct (p !! j) as [[mj cj]|] eqn:Hj.
    + unfold bind, ret in Hstep.
      destruct (thread_step mj cj w) as [[cj' w2]| |] eqn:Hth; try discriminate.
      injection Hstep as <- <-.
      pose proof (thread_step_remaining _ _ _ _ _ Hth) as Hdec.
      destruct (decide (i = j)) as [->|Hne].
      * rewrite Hj in Hi. injection Hi as <- <-.
        destruct (IH _ _ _ _ Hrun j mj cj') as (c' & Hc' & Hle).
        { apply list_lookup_insert_eq. eapply lookup_lt_Some; eauto. }
        exists c'. split; [exact Hc'|]. cbn [count_occ].
        destruct (Nat.eq_dec j j); [lia|congruence].
      * destruct (IH _ _ _ _ Hrun i m c) as (c' & Hc' & Hle).
        { rewrite list_lookup_insert_ne by congruence. exact Hi. }
        exists c'. split; [exact Hc'|]. cbn [count_occ].
        destruct (Nat.eq_dec j i); [congruence|lia].
    + unfold ret in Hstep. injection Hstep as <- <-.
      destruct (IH _ _ _ _ Hrun i m c Hi) as (c' & Hc' & Hle).
      exists c'. split; [exact Hc'|]. cbn [count_occ].
      destruct (Nat.eq_dec j i) as [->|]; [congruence|lia].
Qed.

(** X3. Under a schedule that gives every caller three turns, every caller
    has returned when the schedule is through. *)
Lemma run_fair_all_done ms sched w p' w' :
  (forall i, (i < length ms)%nat -> (3 <= count_occ Nat.eq_dec sched i)%nat) ->
  run sched (spawn ms) w = Ok (p', w') ->
  all_done p' = true.
Proof.
  intros Hfair Hrun. unfold all_done. apply forallb_forall. intros [m c'] Hin.
  apply list_elem_of_In, list_elem_of_lookup in Hin as [i Hi'].
  pose proof (run_metrics _ _ _ _ _ Hrun) as Hmet. rewrite spawn_metrics in Hmet.
  assert (Hlt : (i < length ms)%nat).
  { rewrite <- Hmet, length_fmap. eapply lookup_lt_Some; eauto. }
  destruct (lookup_lt_is_Some_2 ms i Hlt) as [m0 Hm0].
  destruct (run_remaining _ _ _ _ _ Hrun i m0 AtLookup) as (c1 & Hc1 & Hle).
  { unfold spawn. now rewrite list_lookup_fmap, Hm0. }
  rewrite Hi' in Hc1. injection Hc1 as <- <-.
  specialize (Hfair i Hlt). cbn in Hle.
  unfold is_done. cbn. destruct c'; cbn in Hle; try lia; reflexivity.
Qed.

End Alone.

Lemma Add_in_range_witness :
  let w := New_world Sample.store_ok in
  in_range (dc w) /\
  exists w', Add Sample.m_a w = Ok (tt, w') /\ in_range (dc w').
Proof.
  assert (H : in_range (dc (New_world Sample.store_ok))) by apply New_world_in_range.
  split; [exact H|]. exact (Add_in_range Sample.m_a _ H).
Defined.

Lemma run_fair_all_done_witness :
  let w := New_world Sample.store_ok in
  let ms := [Sample.host_cpu Sample.T; Sample.host_cpu (Sample.T + 100)] in
  let sched := [0; 1; 0; 1; 0; 1]%nat in
  (forall i, (i < length ms)%nat -> (3 <= count_occ Nat.eq_dec sched i)%nat) /\
  exists p' w',
    run sched (spawn ms) w = Ok (p', w') /\ all_done p' = true.
Proof.
  cbv zeta.
  assert (Hfair : forall i,
            (i < length [Sample.host_cpu Sample.T; Sample.host_cpu (Sample.T + 100)])%nat ->
            (3 <= count_occ Nat.eq_dec [0; 1; 0; 1; 0; 1]%nat i)%nat).
  { intros [|[|i]] Hi; cbn in *; lia. }
  split; [exact Hfair|].
  destruct (run [0; 1; 0; 1; 0; 1]%nat
              (spawn [Sample.host_cpu Sample.T; Sample.host_cpu (Sample.T + 100)])
              (New_world Sample.store_ok)) as [[p' w']| |] eqn:Hrun;
    [|vm_compute in Hrun; discriminate Hrun..].
  exists p', w'. split; [reflexivity|].
  exact (run_fair_all_done _ _ _ _ _ Hfair Hrun).
Defined.

(** ** Get, List and Find; what Add keeps *)

Section Lookups.

Context {Store : Type} `{!Defs Store}.

Implicit Types (w : World Store) (mdef def : MetricDefinition) (metric m : MetricData).

Lemma Get_unfold k w :
  Get k w =
    match ById (dc w) !! k with
    | Some id =>
        match defs (dc w) !! id with
        | Some def => Ok (Some def, w)
        | None => Panic
        end
    | None => Ok (None, w)
    end.
Proof.
  unfold Get, ById_lookup, defs_index, bind, get_dc, ret. cbn.
  destruct (ById (dc w) !! k) as [id|]; [|reflexivity].
  now destruct (defs (dc w) !! id).
Qed.

(** X4. In a cache whose identifiers are in range, [Get] returns, with no
    panic, and leaves the world as it was; it answers with nothing exactly
    when the id is not registered, and otherwise with the definition in the
    slot the id is registered under. *)
Theorem Get_in_range k w :
  in_range (dc w) ->
  exists r,
    Get k w = Ok (r, w) /\
    (r = None <-> ById (dc w) !! k = None) /\
    (forall id, ById (dc w) !! k = Some id -> r = defs (dc w) !! id).
Proof.
  intros Hr. rewrite Get_unfold.
  destruct (ById (dc w) !! k) as [id|] eqn:Hk.
  - destruct (in_range_lookup _ _ _ Hr Hk) as [def Hdef]. rewrite Hdef.
    exists (Some def). split; [reflexivity|]. split; [split; discriminate|].
    now intros id' [= <-].
  - exists None. split; [reflexivity|]. split; [tauto|discriminate].
Qed.

(** From a cache whose identifiers are in range, [Add] returns. *)
Lemma Add_in_range_run m w :
  in_range (dc w) -> exists w', Add m w = Ok (tt, w').
Proof.
  intros Hr. rewrite Add_unfold.
  destruct (ById (dc w) !! md_Id m) as [id|] eqn:Hid.
  - destruct (in_range_lookup _ _ _ Hr Hid) as [def Hdef]. rewrite Hdef.
    destruct (stale def m); [|eauto].
    destruct (Add_refresh_in_memory m id (MetricDefinitionFromMetricData m) w def Hdef)
      as (w' & Hrun & _).
    eauto.
  - destruct (Add_create_in_memory m (MetricDefinitionFromMetricData m) w)
      as (w' & Hrun & _).
    eauto.
Qed.

(** What one call of [Add] does to the in-memory part, to the number of
    write-throughs, to the counters and to the log, case by case. *)
Lemma addToES_effect mdef w :
  exists w', addToES mdef w = Ok (tt, w') /\
    in_memory w' = in_memory w /\
    write_throughs w' = S (write_throughs w) /\
    (metricsToEsOK w' + metricsToEsFail w' = S (metricsToEsOK w + metricsToEsFail w))%nat /\
    (log_errors w' + metricsToEsFail w = log_errors w + metricsToEsFail w')%nat.
Proof.
  destruct (IndexMetric mdef (defsStore (dc w))) as [[e|] s'] eqn:Hix.
  - eexists. split; [apply (addToES_err _ _ _ _ Hix)|].
    unfold write_throughs, log_errors. cbn.
    rewrite !List.filter_app, !length_app. cbn. repeat split; lia.
  - eexists. split; [apply (addToES_ok _ _ _ Hix)|].
    unfold write_throughs, log_errors. cbn.
    rewrite !List.filter_app, !length_app. cbn. repeat split; lia.
Qed.

Lemma Backfill_def_effect def w :
  write_throughs (with_memory (register def (in_memory w)) w) = write_throughs w /\
  log_errors (with_memory (register def (in_memory w)) w) = log_errors w.
Proof. split; reflexivity. Qed.

Lemma Add_effect m w w' :
  Add m w = Ok (tt, w') ->
  let mdef := MetricDefinitionFromMetricData m in
  (write_throughs w' = write_throughs w \/ write_throughs w' = S (write_throughs w)) /\
  (metricsToEsOK w' + metricsToEsFail w' + write_throughs w =
   metricsToEsOK w + metricsToEsFail w + write_throughs w')%nat /\
  (log_errors w' + metricsToEsFail w = log_errors w + metricsToEsFail w')%nat /\
  in_memory w' =
    match ById (dc w) !! md_Id m with
    | Some id =>
        match defs (dc w) !! id with
        | Some old =>
            (if stale old m then <[id := mdef]> (defs (dc w)) else defs (dc w),
             ById (dc w), ByKey (dc w))
        | None => in_memory w
        end
    | None => register mdef (in_memory w)
    end.
Proof.
  rewrite Add_unfold. intros Hrun mdef.
  destruct (ById (dc w) !! md_Id m) as [id|] eqn:Hid.
  - destruct (defs (dc w) !! id) as [old|] eqn:Hold; [|discriminate].
    destruct (stale old m) eqn:Hst.
    + rewrite Add_refresh_unfold, Hold, Hst in Hrun.
      destruct (addToES_effect mdef w) as (w1 & Hes & Hmem & Hwt & Hcnt & Hlog).
      fold mdef in Hrun. rewrite Hes in Hrun. injection Hmem as Hd Hi Hk.
      rewrite defs_assign_spec in Hrun by (rewrite Hd; eapply lookup_lt_Some; eauto).
      assert (Hw' : w' = with_memory (<[id:=mdef]> (defs (dc w1)), ById (dc w1), ByKey (dc w1)) w1)
        by congruence.
      subst w'. clear Hrun. rewrite in_memory_with_memory, Hd, Hi, Hk.
      change (write_throughs (with_memory _ w1)) with (write_throughs w1).
      change (log_errors (with_memory _ w1)) with (log_errors w1).
      cbn [with_memory metricsToEsOK metricsToEsFail].
      repeat split; lia.
    + injection Hrun as <-. repeat split; lia.
  - rewrite Add_create_unfold, Hid in Hrun.
    destruct (addToES_effect mdef w) as (w1 & Hes & Hmem & Hwt & Hcnt & Hlog).
    fold mdef in Hrun. rewrite Hes, Backfill_def_spec in Hrun.
    assert (Hw' : w' = with_memory (register mdef (in_memory w1)) w1) by congruence.
    subst w'. clear Hrun. rewrite in_memory_with_memory, Hmem.
    change (write_throughs (with_memory _ w1)) with (write_throughs w1).
    change (log_errors (with_memory _ w1)) with (log_errors w1).
    cbn [with_memory metricsToEsOK metricsToEsFail].
    repeat split; lia.
Qed.


(** The parts of [register]. *)
Lemma register_parts def defs0 byId byKey :
  exists id ix,
    Idx_GetOrAdd (OrgId def) (Name def) byKey = (id, ix) /\
    register def (defs0, byId, byKey) =
      (defs0 ++ [def], <[Id def := id]> byId, Idx_AddRef (OrgId def) id ix) /\
    (match Idx_Get (OrgId def) (Name def) byKey with
     | Some id' => id = id' /\ revkeys ix = revkeys byKey
     | None => id = length (revkeys byKey) /\
               revkeys ix = revkeys byKey ++ [(OrgId def, Name def)]
     end).
Proof.
  unfold register, Idx_GetOrAdd.
  destruct (Idx_Get (OrgId def) (Name def) byKey) as [id'|]; eexists _, _; repeat split.
Qed.

(** X5. [Add] only adds: a registered id stays registered under the slot it
    had, the indexed names keep their identifiers, [defs] does not shrink,
    and every slot but the one the id of the data point is registered under
    keeps its definition. *)
Theorem Add_append_only m w w' :
  Add m w = Ok (tt, w') ->
  (forall k id, ById (dc w) !! k = Some id -> ById (dc w') !! k = Some id) /\
  revkeys (ByKey (dc w)) `prefix_of` revkeys (ByKey (dc w')) /\
  (length (defs (dc w)) <= length (defs (dc w')))%nat /\
  (forall i def, defs (dc w) !! i = Some def ->
                 ById (dc w) !! md_Id m <> Some i ->
                 defs (dc w') !! i = Some def).
Proof.
  intros Hrun. destruct (Add_effect m w w' Hrun) as (_ & _ & _ & Hmem).
  destruct (ById (dc w) !! md_Id m) as [id|] eqn:Hid.
  - destruct (defs (dc w) !! id) as [old|] eqn:Hold.
    + injection Hmem as Hd Hi Hk. rewrite Hd, Hi, Hk.
      split; [auto|]. split; [reflexivity|].
      destruct (stale old m).
      * rewrite length_insert. split; [lia|].
        intros i def Hdef Hne. rewrite list_lookup_insert_ne by congruence. exact Hdef.
      * split; [lia|auto].
    + injection Hmem as Hd Hi Hk. rewrite Hd, Hi, Hk.
      split; [auto|]. split; [reflexivity|]. split; [lia|auto].
  - unfold in_memory in Hmem at 2.
    destruct (register_parts (MetricDefinitionFromMetricData m)
                (defs (dc w)) (ById (dc w)) (ByKey (dc w)))
      as (id & ix & _ & Hreg & Hkeys).
    rewrite Hreg in Hmem. injection Hmem as Hd Hi Hk. rewrite Hd, Hi, Hk. cbn.
    cbn [OrgId Name MetricDefinitionFromMetricData] in Hkeys.
    split; [|split; [|split]].
    + intros k id' Hk'. rewrite lookup_insert_ne; [exact Hk'|]. congruence.
    + destruct (Idx_Get (md_OrgId m) (md_Name m) (ByKey (dc w))); destruct Hkeys as [_ ->];
        [reflexivity|]. now apply prefix_app_r.
    + rewrite length_app. lia.
    + intros i def Hdef _. now apply lookup_app_l_Some.
Qed.

(** X6. Every write-through is counted: over a call of [Add] there is at
    most one call of [IndexMetric], the two counters [metricsToEsOK] and
    [metricsToEsFail] together grow by the number of such calls, and
    [metricsToEsFail] grows by the number of error lines logged. *)
Theorem Add_counts_write_throughs m w w' :
  Add m w = Ok (tt, w') ->
  (write_throughs w <= write_throughs w' <= S (write_throughs w))%nat /\
  (metricsToEsOK w' + metricsToEsFail w' =
   metricsToEsOK w + metricsToEsFail w + (write_throughs w' - write_throughs w))%nat /\
  (metricsToEsFail w' = metricsToEsFail w + (log_errors w' - log_errors w))%nat /\
  (log_errors w <= log_errors w')%nat.
Proof.
  intros Hrun. destruct (Add_effect m w w' Hrun) as (Hwt & Hcnt & Hlog & _).
  assert (Hmono : (metricsToEsFail w <= metricsToEsFail w' /\
                   metricsToEsOK w <= metricsToEsOK w')%nat).
  { revert Hrun. rewrite Add_unfold.
    destruct (ById (dc w) !! md_Id m) as [id|].
    - destruct (defs (dc w) !! id) as [old|]; [|discriminate].
      destruct (stale old m); [|intros [= <-]; lia].
      rewrite Add_refresh_unfold.
      destruct (defs (dc w) !! id) as [old'|]; [|discriminate].
      destruct (stale old' m); [|intros [= <-]; lia].
      destruct (IndexMetric (MetricDefinitionFromMetricData m) (defsStore (dc w)))
        as [[e|] s'] eqn:Hix.
      + rewrite (addToES_err _ _ _ _ Hix). unfold defs_assign, bind, get_dc, put_dc. cbn.
        destruct (decide _); [|discriminate]. intros [= <-]. cbn. lia.
      + rewrite (addToES_ok _ _ _ Hix). unfold defs_assign, bind, get_dc, put_dc. cbn.
        destruct (decide _); [|discriminate]. intros [= <-]. cbn. lia.
    - rewrite Add_create_unfold.
      destruct (ById (dc w) !! md_Id m); [intros [= <-]; lia|].
      destruct (IndexMetric (MetricDefinitionFromMetricData m) (defsStore (dc w)))
        as [[e|] s'] eqn:Hix.
      + rewrite (addToES_err _ _ _ _ Hix), Backfill_def_spec. intros [= <-]. cbn. lia.
      + rewrite (addToES_ok _ _ _ Hix), Backfill_def_spec. intros [= <-]. cbn. lia. }
  lia.
Qed.


(** *** When external ids and names go together *)

Lemma Idx_Get_None org name ix :
  Idx_Get org name ix = None <-> (org, name) ∉ revkeys ix.
Proof.
  unfold Idx_Get. rewrite fmap_None, list_find_None, Forall_forall. split.
  - intros Hall Hin. now apply (Hall _ Hin).
  - intros Hnot k Hin ->. contradiction.
Qed.

Lemma consistent_in_range (d : DefCache Store) : consistent d -> in_range d.
Proof.
  intros (Hlen & _ & Hby & _). split; [lia|].
  intros k id Hk. destruct (Hby k id Hk) as (def & Hdef & _).
  rewrite Hlen. eapply lookup_lt_Some; eauto.
Qed.

Lemma New_world_consistent (s : Store) : consistent (dc (New_world s)).
Proof.
  split; [reflexivity|]. split; [|split].
  - intros i org name Hi. cbn in Hi. now rewrite lookup_nil in Hi.
  - intros k id Hk. cbn in Hk. now rewrite lookup_empty in Hk.
  - intros i def Hi. cbn in Hi. now rewrite lookup_nil in Hi.
Qed.

(** Indexing a definition with an unregistered id and a tenant and name not
    indexed yet keeps the cache consistent. *)
Lemma register_consistent def w w' :
  consistent (dc w) ->
  in_memory w' = register def (in_memory w) ->
  ById (dc w) !! Id def = None ->
  Idx_Get (OrgId def) (Name def) (ByKey (dc w)) = None ->
  consistent (dc w').
Proof.
  intros (Hlen & Hpos & Hby & Hslot) Hmem Hnone Hget. unfold in_memory in Hmem at 2.
  destruct (register_parts def (defs (dc w)) (ById (dc w)) (ByKey (dc w)))
    as (id & ix & _ & Hreg & Hkeys).
  rewrite Hget in Hkeys. destruct Hkeys as [-> Hkeys].
  rewrite Hreg in Hmem. injection Hmem as Hd Hi Hk.
  unfold consistent, position_is_id. rewrite Hd, Hi, Hk. cbn. rewrite Hkeys.
  split; [rewrite !length_app; cbn; lia|]. split; [|split].
  - intros i org name Hlk. destruct (decide (i < length (revkeys (ByKey (dc w))))%nat) as [Hlt|Hge].
    + rewrite lookup_app_l in Hlk by exact Hlt.
      destruct (Hpos _ _ _ Hlk) as (d & Hdef & Ho & Hn).
      exists d. split; [now apply lookup_app_l_Some|auto].
    + rewrite lookup_app_r in Hlk by lia.
      destruct (i - length (revkeys (ByKey (dc w))))%nat as [|n] eqn:Hsub; [|discriminate].
      cbn in Hlk. injection Hlk as <- <-.
      assert (i = length (defs (dc w))) as -> by lia.
      exists def. split; [|auto]. rewrite lookup_app_r by lia. now rewrite Nat.sub_diag.
  - intros k id Hlk. destruct (decide (k = Id def)) as [->|Hne].
    + rewrite lookup_insert_eq in Hlk. injection Hlk as <-.
      exists def. split; [|reflexivity].
      rewrite Hlen, lookup_app_r by lia. now rewrite Nat.sub_diag.
    + rewrite lookup_insert_ne in Hlk by congruence.
      destruct (Hby _ _ Hlk) as (d & Hdef & Hid). exists d.
      split; [now apply lookup_app_l_Some|exact Hid].
  - intros i d Hlk. destruct (decide (i < length (defs (dc w)))%nat) as [Hlt|Hge].
    + rewrite lookup_app_l in Hlk by exact Hlt. pose proof (Hslot _ _ Hlk) as Hreg'.
      rewrite lookup_insert_ne; [exact Hreg'|]. congruence.
    + rewrite lookup_app_r in Hlk by lia.
      destruct (i - length (defs (dc w)))%nat as [|n] eqn:Hsub; [|discriminate].
      cbn in Hlk. injection Hlk as <-.
      assert (i = length (revkeys (ByKey (dc w)))) as -> by lia.
      apply lookup_insert_eq.
Qed.

(** Overwriting the slot of a registered id with a definition of the same
    id, tenant and name keeps the cache consistent. *)
Lemma refresh_consistent m w w' id old :
  consistent (dc w) ->
  ById (dc w) !! md_Id m = Some id ->
  defs (dc w) !! id = Some old ->
  OrgId old = md_OrgId m -> Name old = md_Name m ->
  in_memory w' =
    (<[id := MetricDefinitionFromMetricData m]> (defs (dc w)), ById (dc w), ByKey (dc w)) ->
  consistent (dc w').
Proof.
  intros (Hlen & Hpos & Hby & Hslot) Hid Hold Horg Hname [= Hd Hi Hk].
  assert (Hlt : (id < length (defs (dc w)))%nat) by (eapply lookup_lt_Some; eauto).
  unfold consistent, position_is_id. rewrite Hd, Hi, Hk, length_insert.
  split; [exact Hlen|]. split; [|split].
  - intros i org name Hlk. destruct (Hpos _ _ _ Hlk) as (d & Hdef & Ho & Hn).
    destruct (decide (i = id)) as [->|Hne].
    + rewrite list_lookup_insert_eq by exact Hlt. eexists. split; [reflexivity|].
      rewrite Hold in Hdef. injection Hdef as <-. cbn. split; congruence.
    + rewrite list_lookup_insert_ne by congruence. eauto.
  - intros k id' Hlk. destruct (Hby _ _ Hlk) as (d & Hdef & Hidd).
    destruct (decide (id' = id)) as [->|Hne].
    + rewrite list_lookup_insert_eq by exact Hlt. eexists. split; [reflexivity|].
      destruct (Hby _ _ Hid) as (d' & Hdef' & Hidd'). cbn. congruence.
    + rewrite list_lookup_insert_ne by congruence. eauto.
  - intros i d Hlk. destruct (decide (i = id)) as [->|Hne].
    + rewrite list_lookup_insert_eq in Hlk by exact Hlt. injection Hlk as <-. exact Hid.
    + rewrite list_lookup_insert_ne in Hlk by congruence. eauto.
Qed.

(** [Add] of a data point of the series its id stands for, in a consistent
    cache: the call returns, the cache stays consistent, and the slot the
    id is registered under holds a definition of the data point's series
    that is fresh for the data point. *)
Lemma Add_consistent_step m w :
  consistent (dc w) ->
  same_series w m ->
  exists w' id def,
    Add m w = Ok (tt, w') /\
    consistent (dc w') /\
    ById (dc w') !! md_Id m = Some id /\
    defs (dc w') !! id = Some def /\
    Id def = md_Id m /\ OrgId def = md_OrgId m /\ Name def = md_Name m /\
    md_Time m - 21600 <= LastUpdate def /\
    (ById (dc w) !! md_Id m = None -> def = MetricDefinitionFromMetricData m).
Proof.
  intros Hc Hsame.
  destruct (Add_in_range_run m w (consistent_in_range _ Hc)) as (w' & Hrun).
  destruct (Add_effect m w w' Hrun) as (_ & _ & _ & Hmem).
  exists w'. unfold same_series in Hsame.
  destruct (ById (dc w) !! md_Id m) as [id|] eqn:Hid.
  - destruct Hc as (Hlen & Hpos & Hby & Hslot).
    destruct (Hby _ _ Hid) as (old & Hold & Hidold).
    destruct (Hsame old Hold) as [Horg Hname].
    rewrite Hold in Hmem. destruct (stale old m) eqn:Hst.
    + exists id, (MetricDefinitionFromMetricData m). split; [exact Hrun|].
      split. { eapply (refresh_consistent m w w' id old); eauto. repeat split; auto. }
      injection Hmem as Hd Hi Hk. rewrite Hi, Hd.
      split; [exact Hid|]. split; [apply list_lookup_insert_eq; eapply lookup_lt_Some; eauto|].
      cbn. repeat split; try lia; try discriminate.
    + apply stale_false in Hst. exists id, old. split; [exact Hrun|].
      injection Hmem as Hd Hi Hk.
      split. { unfold consistent, position_is_id. rewrite Hd, Hi, Hk. auto. }
      rewrite Hi, Hd. repeat split; auto; try discriminate.
  - pose proof (register_consistent _ w w' Hc Hmem Hid Hsame) as Hc'.
    unfold in_memory in Hmem at 2.
    destruct (register_parts (MetricDefinitionFromMetricData m)
                (defs (dc w)) (ById (dc w)) (ByKey (dc w)))
      as (id & ix & _ & Hreg & _).
    rewrite Hreg in Hmem. injection Hmem as Hd Hi Hk.
    exists id, (MetricDefinitionFromMetricData m). split; [exact Hrun|]. split; [exact Hc'|].
    assert (Hlk : ById (dc w') !! md_Id m = Some id) by (rewrite Hi; apply lookup_insert_eq).
    split; [exact Hlk|].
    destruct Hc' as (_ & _ & Hby' & _). destruct (Hby' _ _ Hlk) as (d & Hdef & Hidd).
    assert (d = MetricDefinitionFromMetricData m) as ->.
    { rewrite Hd in Hdef. apply lookup_app_Some in Hdef as [Hdef|[_ Hdef]].
      - destruct Hc as (_ & _ & _ & Hslot). specialize (Hslot _ _ Hdef). congruence.
      - destruct (id - length (defs (dc w)))%nat; [now injection Hdef|discriminate]. }
    split; [exact Hdef|]. cbn. repeat split; auto. lia.
Qed.

(** X8. The invariant of the cache that fails in general holds while every
    data point belongs to the series its id stands for: [Add] of such a
    point in a consistent cache returns and leaves the cache consistent;
    positions are identifiers, and each id is registered under the slot
    that holds its definition. *)
Theorem Add_keeps_consistent m w :
  consistent (dc w) ->
  same_series w m ->
  exists w', Add m w = Ok (tt, w') /\ consistent (dc w') /\ position_is_id (dc w').
Proof.
  intros Hc Hsame.
  destruct (Add_consistent_step m w Hc Hsame) as (w' & id & def & Hrun & Hc' & _).
  exists w'. split; [exact Hrun|]. split; [exact Hc'|]. now destruct Hc' as (_ & Hpos & _).
Qed.

(** X9. [Add] then [Get]: after [Add] of a data point of the series its id
    stands for, in a consistent cache, [Get] of the id answers with a
    definition of that id, tenant and name whose last-update is within
    21600 seconds below the time of the point, and with the definition
    built from the point when the id was not registered before. *)
Theorem Add_then_Get m w :
  consistent (dc w) ->
  same_series w m ->
  exists w' def,
    Add m w = Ok (tt, w') /\
    Get (md_Id m) w' = Ok (Some def, w') /\
    Id def = md_Id m /\ OrgId def = md_OrgId m /\ Name def = md_Name m /\
    md_Time m - 21600 <= LastUpdate def /\
    (ById (dc w) !! md_Id m = None -> def = MetricDefinitionFromMetricData m).
Proof.
  intros Hc Hsame.
  destruct (Add_consistent_step m w Hc Hsame)
    as (w' & id & def & Hrun & _ & Hid & Hdef & Hrest).
  exists w', def. split; [exact Hrun|]. split; [|exact Hrest].
  now rewrite Get_unfold, Hid, Hdef.
Qed.

(** *** Backfill to the end, and New *)

Lemma in_memory_logged mem w a b (tr : list event) :
  in_memory (mkWorld (dc (with_memory mem w)) a b tr) = mem.
Proof. destruct mem as [[? ?] ?]. reflexivity. Qed.

Lemma Backfill_loop_done fuel total w :
  Backfill_loop fuel total "" w =
    Ok (tt, mkWorld (dc w) (metricsToEsOK w) (metricsToEsFail w)
                    (trace w ++ [EvLogDebug (backfill_done total)])).
Proof. destruct fuel; reflexivity. Qed.

(** The loop of [Backfill], entered with a scroll id that is not empty, when
    the store serves the pages [pgs] and is through. *)
Lemma Backfill_loop_serves pgs : forall w total c s'' fuel,
  c <> "" ->
  serves (defsStore (dc w)) c pgs s'' ->
  (length pgs <= fuel)%nat ->
  exists w',
    Backfill_loop fuel total c w = Ok (tt, w') /\
    in_memory w' = foldl (fun mem def => register def mem) (in_memory w) (concat pgs.*2) /\
    trace w' = trace w ++ (EvGetMetrics <$> pgs.*1) ++
                 [EvLogDebug (backfill_done (total + Z.of_nat (length (concat pgs.*2))))] /\
    defsStore (dc w') = s'' /\
    metricsToEsOK w' = metricsToEsOK w /\
    metricsToEsFail w' = metricsToEsFail w.
Proof.
  induction pgs as [|[c0 met] pgs IH]; intros w total c s'' fuel Hc Hs Hfuel.
  - inversion Hs.
  - destruct fuel as [|fuel]; [cbn in Hfuel; lia|]. cbn [Backfill_loop].
    inversion Hs as [s0 c1 met1 s1 Hget|s0 c1 met1 sc s1 pgs1 s2 Hget Hsc Hrest]; subst.
    + destruct (decide (c0 = "")) as [->|_]; [congruence|].
      rewrite (bind_Ok _ _ _ _ _ (defsStore_GetMetrics_spec _ _ _ _ Hget)).
      cbv beta iota.
      rewrite (bind_Ok _ _ _ _ _ (Backfill_add_spec _ _ _)).
      rewrite Backfill_loop_done.
      eexists; split; [reflexivity|].
      split; [rewrite in_memory_logged; cbn; now rewrite app_nil_r|].
      cbn. rewrite app_nil_r, <- app_assoc. repeat split.
    + destruct (decide (c0 = "")) as [->|_]; [congruence|].
      rewrite (bind_Ok _ _ _ _ _ (defsStore_GetMetrics_spec _ _ _ _ Hget)).
      cbv beta iota.
      rewrite (bind_Ok _ _ _ _ _ (Backfill_add_spec _ _ _)).
      match goal with |- context [Backfill_loop fuel ?t sc ?w1] =>
        destruct (IH w1 t sc s'' fuel Hsc) as (w' & Hrun & Hmem & Htr & Hst & Hok & Hfail)
      end.
      { exact Hrest. }
      { cbn in Hfuel. lia. }
      exists w'. split; [exact Hrun|].
      rewrite Hmem, Htr, Hst, Hok, Hfail, in_memory_with_memory. cbn.
      rewrite foldl_app, length_app, Nat2Z.inj_add, Z.add_assoc, <- !app_assoc.
      repeat split.
Qed.

Lemma Backfill_serves_run w pgs s'' fuel :
  serves (defsStore (dc w)) "" pgs s'' ->
  (length pgs <= S fuel)%nat ->
  exists w',
    Backfill fuel w = Ok (tt, w') /\
    in_memory w' = foldl (fun mem def => register def mem) (in_memory w) (concat pgs.*2) /\
    trace w' = trace w ++ (EvGetMetrics <$> pgs.*1) ++
                 [EvLogDebug (backfill_done (Z.of_nat (length (concat pgs.*2))))] /\
    defsStore (dc w') = s'' /\
    metricsToEsOK w' = metricsToEsOK w /\
    metricsToEsFail w' = metricsToEsFail w.
Proof.
  intros Hs Hfuel. unfold Backfill.
  inversion Hs as [s0 c1 met1 s1 Hget|s0 c1 met1 sc s1 pgs1 s2 Hget Hsc Hrest]; subst.
  - rewrite (bind_Ok _ _ _ _ _ (defsStore_GetMetrics_spec _ _ _ _ Hget)).
    cbv beta iota.
    rewrite (bind_Ok _ _ _ _ _ (Backfill_add_spec _ _ _)).
    rewrite Backfill_loop_done.
    eexists; split; [reflexivity|].
    split; [rewrite in_memory_logged; cbn; now rewrite app_nil_r|].
    cbn. rewrite app_nil_r, <- app_assoc. repeat split.
  - rewrite (bind_Ok _ _ _ _ _ (defsStore_GetMetrics_spec _ _ _ _ Hget)).
    cbv beta iota.
    rewrite (bind_Ok _ _ _ _ _ (Backfill_add_spec _ _ _)).
    match goal with |- context [Backfill_loop fuel ?t sc ?w1] =>
      destruct (Backfill_loop_serves pgs1 w1 t sc s'' fuel Hsc)
        as (w' & Hrun & Hmem & Htr & Hst & Hok & Hfail)
    end.
    { exact Hrest. }
    { cbn in Hfuel. lia. }
    exists w'. split; [exact Hrun|].
    rewrite Hmem, Htr, Hst, Hok, Hfail, in_memory_with_memory. cbn.
    rewrite foldl_app, length_app, Nat2Z.inj_add, <- !app_assoc.
    repeat split.
Qed.

(** X10. When the store serves its pages up to the one that comes with the
    empty scroll id, [Backfill] ends (given one loop iteration for each page
    after the first): it has asked for each page once and in order, the
    definitions of all pages are appended to [defs] and indexed in order,
    the last line logged is the number of definitions loaded, and there has
    been no write-through and no change of the counters. *)
Theorem Backfill_all_pages w pgs s'' fuel :
  serves (defsStore (dc w)) "" pgs s'' ->
  (length pgs <= S fuel)%nat ->
  exists w',
    Backfill fuel w = Ok (tt, w') /\
    in_memory w' = foldl (fun mem def => register def mem) (in_memory w) (concat pgs.*2) /\
    defs (dc w') = defs (dc w) ++ concat pgs.*2 /\
    trace w' = trace w ++ (EvGetMetrics <$> pgs.*1) ++
                 [EvLogDebug (backfill_done (Z.of_nat (length (concat pgs.*2))))] /\
    write_throughs w' = write_throughs w /\
    defsStore (dc w') = s'' /\
    metricsToEsOK w' = metricsToEsOK w /\
    metricsToEsFail w' = metricsToEsFail w.
Proof.
  intros Hs Hfuel.
  destruct (Backfill_serves_run w pgs s'' fuel Hs Hfuel)
    as (w' & Hrun & Hmem & Htr & Hrest).
  exists w'. split; [exact Hrun|]. split; [exact Hmem|].
  split. { change (defs (dc w')) with (in_memory w').1.1.
           now rewrite Hmem, foldl_register_defs. }
  split; [exact Htr|]. split; [|exact Hrest].
  unfold write_throughs. rewrite Htr, !List.filter_app, !length_app.
  assert (Hnone : forall l : list string, List.filter is_IndexMetric (EvGetMetrics <$> l) = []).
  { intros l. induction l as [|c l IHl]; [reflexivity|exact IHl]. }
  rewrite Hnone. cbn. lia.
Qed.

(** Indexing definitions with ids and names that differ from one another
    and from those of the cache keeps the cache consistent. *)
Lemma foldl_register_consistent (l : list MetricDefinition) : forall w,
  consistent (dc w) ->
  NoDup (Id <$> l) ->
  NoDup ((fun d => (OrgId d, Name d)) <$> l) ->
  (forall def, def ∈ l ->
     ById (dc w) !! Id def = None /\ (OrgId def, Name def) ∉ revkeys (ByKey (dc w))) ->
  consistent (dc (with_memory (foldl (fun mem def => register def mem) (in_memory w) l) w)).
Proof.
  induction l as [|def l IH]; intros w Hc Hids Hnames Hfresh; cbn [foldl].
  - now rewrite with_memory_in_memory.
  - apply NoDup_cons in Hids as [Hid Hids]. apply NoDup_cons in Hnames as [Hname Hnames].
    destruct (Hfresh def) as [Hnone Hnew]; [apply list_elem_of_here|].
    remember (with_memory (register def (in_memory w)) w) as w1 eqn:Hw1.
    assert (Hmem1 : in_memory w1 = register def (in_memory w))
      by (subst w1; apply in_memory_with_memory).
    assert (Hc1 : consistent (dc w1)).
    { eapply register_consistent; eauto. now apply Idx_Get_None. }
    specialize (IH w1 Hc1 Hids Hnames). rewrite Hmem1 in IH.
    assert (Hdc : forall mem, dc (with_memory mem w1) = dc (with_memory mem w))
      by (intros mem; now subst w1).
    rewrite Hdc in IH. apply IH.
    intros d Hd. destruct (Hfresh d) as [Hnone' Hnew']; [now apply list_elem_of_further|].
    destruct (register_parts def (defs (dc w)) (ById (dc w)) (ByKey (dc w)))
      as (id & ix & _ & Hreg & Hkeys).
    apply Idx_Get_None in Hnew. rewrite Hnew in Hkeys. destruct Hkeys as [_ Hkeys].
    assert (Hi : ById (dc w1) = (register def (in_memory w)).1.2) by (now subst w1).
    assert (Hk : ByKey (dc w1) = (register def (in_memory w)).2) by (now subst w1).
    unfold in_memory in Hi, Hk. rewrite Hreg in Hi, Hk. cbn in Hi, Hk.
    rewrite Hi, Hk. cbn. rewrite Hkeys.
    split.
    + rewrite lookup_insert_ne; [exact Hnone'|].
      intros Heq. apply Hid. rewrite Heq. apply list_elem_of_fmap. eauto.
    + rewrite elem_of_app, list_elem_of_singleton. intros [Hin|Heq]; [contradiction|].
      apply Hname. rewrite <- Heq. apply list_elem_of_fmap. eauto.
Qed.

(** X11. The bootstrap round trip: when the store serves its pages to the
    end, and the definitions served have ids that differ from one another
    and tenant-and-name pairs that differ from one another, [New] returns a
    consistent cache in which [Get] of the id of each definition served
    answers with that definition. *)
Theorem New_then_Get (s s'' : Store) pgs fuel :
  serves s "" pgs s'' ->
  (length pgs <= S fuel)%nat ->
  NoDup (Id <$> concat pgs.*2) ->
  NoDup ((fun d => (OrgId d, Name d)) <$> concat pgs.*2) ->
  exists w',
    New fuel s = Ok (tt, w') /\
    consistent (dc w') /\
    defs (dc w') = concat pgs.*2 /\
    forall def, def ∈ concat pgs.*2 -> Get (Id def) w' = Ok (Some def, w').
Proof.
  intros Hs Hfuel Hids Hnames. unfold New.
  destruct (Backfill_serves_run (New_world s) pgs s'' fuel Hs Hfuel)
    as (w' & Hrun & Hmem & _).
  exists w'. split; [exact Hrun|].
  assert (Hc : consistent (dc w')).
  { pose proof (foldl_register_consistent (concat pgs.*2) (New_world s)
                  (New_world_consistent s) Hids Hnames) as Hfold.
    rewrite <- Hmem in Hfold.
    assert (Hc0 : consistent (dc (with_memory (in_memory w') (New_world s)))).
    { apply Hfold. intros def _. cbn. split; [apply lookup_empty|apply not_elem_of_nil]. }
    destruct Hc0 as (H1 & H2 & H3 & H4). repeat split; assumption. }
  assert (Hdefs : defs (dc w') = concat pgs.*2).
  { change (defs (dc w')) with (in_memory w').1.1.
    now rewrite Hmem, foldl_register_defs. }
  split; [exact Hc|]. split; [exact Hdefs|].
  intros def Hin. rewrite <- Hdefs in Hin.
  apply list_elem_of_lookup in Hin as [i Hi].
  destruct Hc as (_ & _ & _ & Hslot).
  now rewrite Get_unfold, (Hslot _ _ Hi), Hi.
Qed.

(** *** List and Find *)

(** The projection of identifiers to slots reads each slot, in order, and
    changes nothing; it panics at the first identifier past the end. *)
Lemma defs_project_spec (ids : list nat) (ds : list MetricDefinition) w :
  Forall2 (fun id d => defs (dc w) !! id = Some d) ids ds ->
  defs_project ids w = Ok (ds, w).
Proof.
  induction 1 as [|id d ids ds Hd _ IH]; [reflexivity|].
  cbn [defs_project]. unfold defs_index, bind at 1 2, get_dc. rewrite Hd.
  unfold ret at 1. unfold bind at 1. now rewrite IH.
Qed.

Lemma defs_project_in_range (ids : list nat) w :
  Forall (fun id => (id < length (defs (dc w)))%nat) ids ->
  exists ds, Forall2 (fun id d => defs (dc w) !! id = Some d) ids ds.
Proof.
  induction 1 as [|id ids Hid _ [ds IH]]; [exists []; constructor|].
  destruct (lookup_lt_is_Some_2 _ _ Hid) as [d Hd].
  exists (d :: ds). now constructor.
Qed.

Lemma Idx_List_from_slots org (alldefs : list MetricDefinition) :
  forall (keys : list (Z * string)) (ds : list MetricDefinition),
    Forall2 (fun k d => OrgId d = k.1) keys ds ->
    forall j,
      (forall i d, ds !! i = Some d -> alldefs !! (j + i)%nat = Some d) ->
      Forall2 (fun id d => alldefs !! id = Some d)
              (Idx_List_from org j keys)
              (List.filter (fun d => Idx_visible org (OrgId d)) ds).
Proof.
  induction 1 as [|[owner name] d keys ds Hk _ IH]; intros j Hslots; [constructor|].
  cbn [Idx_List_from List.filter]. cbn in Hk. rewrite Hk.
  assert (Hrest : Forall2 (fun id d0 => alldefs !! id = Some d0)
                    (Idx_List_from org (S j) keys)
                    (List.filter (fun d0 => Idx_visible org (OrgId d0)) ds)).
  { apply IH. intros i d0 Hi. replace (S j + i)%nat with (j + S i)%nat by lia.
    now apply Hslots. }
  destruct (Idx_visible org owner); [|exact Hrest].
  constructor; [|exact Hrest].
  specialize (Hslots 0%nat d eq_refl). now rewrite Nat.add_0_r in Hslots.
Qed.

Lemma filter_visible_all (l : list MetricDefinition) :
  List.filter (fun d => Idx_visible (-1) (OrgId d)) l = l.
Proof.
  induction l as [|d l IH]; [reflexivity|].
  cbn [List.filter]. change (Idx_visible (-1) (OrgId d)) with true. now rewrite IH.
Qed.

(** X12. In a cache where positions are identifiers, [List] leaves the
    world as it was and answers with the definitions whose tenant is the
    tenant asked for or the shared tenant -1, in the order of [defs]; asked
    for tenant -1 it answers with all of [defs]. *)
Theorem List_visible org w :
  length (revkeys (ByKey (dc w))) = length (defs (dc w)) ->
  position_is_id (dc w) ->
  List org w = Ok (List.filter (fun d => Idx_visible org (OrgId d)) (defs (dc w)), w) /\
  (org = -1 -> List org w = Ok (defs (dc w), w)).
Proof.
  intros Hlen Hpos.
  assert (Hrun : List org w =
                 Ok (List.filter (fun d => Idx_visible org (OrgId d)) (defs (dc w)), w)).
  { unfold List, bind, get_dc. apply defs_project_spec. unfold Idx_List.
    apply Idx_List_from_slots; [|auto].
    apply Forall2_same_length_lookup_2; [exact Hlen|].
    intros i [o n] d Hk Hd. destruct (Hpos _ _ _ Hk) as (d' & Hd' & Ho & _).
    cbn. congruence. }
  split; [exact Hrun|]. intros ->. rewrite Hrun. now rewrite filter_visible_all.
Qed.

(** X13. [Find] hands on the matches of [Match] as they are, with the
    definition in the slot of each match, and leaves the world as it was;
    it does so without a panic in a cache whose identifiers are in range,
    as long as [Match] answers with identifiers of the index. *)
Theorem Find_in_range (Mt : Z -> string -> Idx -> MatchType * list Glob) org key w mt globs :
  in_range (dc w) ->
  Mt org key (ByKey (dc w)) = (mt, globs) ->
  Forall (fun g => (glob_Id g < length (revkeys (ByKey (dc w))))%nat) globs ->
  exists ds,
    Find Mt org key w = Ok ((globs, ds), w) /\
    Forall2 (fun g d => defs (dc w) !! glob_Id g = Some d) globs ds.
Proof.
  intros [Hlen _] Hmt Hids.
  destruct (defs_project_in_range (map glob_Id globs) w) as [ds Hds].
  { apply Forall_fmap. eapply Forall_impl; [exact Hids|]. intros g Hg.
    unfold compose. cbv beta in Hg. lia. }
  exists ds. split.
  - unfold Find, bind at 1, get_dc. rewrite Hmt.
    unfold bind. now rewrite (defs_project_spec _ _ _ Hds).
  - now apply Forall2_fmap_l in Hds.
Qed.

End Lookups.

(** X14. For uint32 bounds with [from < to], the span [String] prints is
    [to - from - 1], with no wrap-around: the number of whole seconds
    strictly between the bounds. *)
Theorem Req_span_no_wrap {C} (r : Req C) :
  Req_wf r ->
  from r < to r ->
  Req_span r = to r - from r - 1 /\ 0 <= Req_span r < 2 ^ 32 - 1.
Proof.
  intros (Hf & Ht & _) Hlt. unfold is_uint32 in Hf, Ht.
  rewrite Req_span_mod, Z.mod_small by lia. lia.
Qed.

Lemma Req_span_no_wrap_witness :
  let r := NewReq "some.key" 1500 1560 1 800 tt in
  Req_wf r /\ from r < to r /\ Req_span r = 59.
Proof.
  assert (Hwf : Req_wf (NewReq "some.key" 1500 1560 1 800 tt))
    by (unfold Req_wf, is_uint32; cbn; lia).
  assert (Hlt : from (NewReq "some.key" 1500 1560 1 800 tt) <
                to (NewReq "some.key" 1500 1560 1 800 tt)) by (cbn; lia).
  split; [exact Hwf|]. split; [exact Hlt|].
  destruct (Req_span_no_wrap _ Hwf Hlt) as [Hspan _]. rewrite Hspan. reflexivity.
Defined.

Lemma Sample_w_abc_in_range : in_range (dc Sample.w_abc).
Proof.
  split; [cbn; lia|]. intros k id Hk. cbn in Hk.
  apply lookup_singleton_Some in Hk as [_ <-]. cbn. lia.
Qed.

Lemma Sample_w_abc_consistent : consistent (dc Sample.w_abc).
Proof.
  split; [reflexivity|]. split; [|split].
  - intros [|i] org name Hi; cbn in Hi; [|destruct i; discriminate Hi].
    injection Hi as <- <-. eexists. split; [reflexivity|]. split; reflexivity.
  - intros k id Hk. cbn in Hk. apply lookup_singleton_Some in Hk as [<- <-].
    eexists. split; reflexivity.
  - intros [|i] def Hi; cbn in Hi; [|destruct i; discriminate Hi].
    injection Hi as <-. reflexivity.
Qed.

Lemma Get_in_range_witness :
  in_range (dc Sample.w_abc) /\
  exists r,
    Get "abc" Sample.w_abc = Ok (r, Sample.w_abc) /\
    r = Some (mkMetricDefinition "abc" 1 "host.cpu" Sample.T).
Proof.
  split; [exact Sample_w_abc_in_range|].
  destruct (Get_in_range "abc" Sample.w_abc Sample_w_abc_in_range) as (r & Hrun & _ & Hslot).
  exists r. split; [exact Hrun|]. exact (Hslot 0%nat eq_refl).
Defined.

Lemma Add_append_only_witness :
  let m := Sample.host_cpu (Sample.T + 30000) in
  exists w',
    Add m Sample.w_abc = Ok (tt, w') /\
    ById (dc w') !! "abc" = Some 0%nat /\
    (length (defs (dc Sample.w_abc)) <= length (defs (dc w')))%nat.
Proof.
  cbv zeta.
  destruct (Add (Sample.host_cpu (Sample.T + 30000)) Sample.w_abc) as [[[] w']| |] eqn:Hrun;
    [|vm_compute in Hrun; discriminate Hrun..].
  exists w'. split; [reflexivity|].
  destruct (Add_append_only _ _ _ Hrun) as (Hby & _ & Hlen & _).
  split; [apply Hby; reflexivity|exact Hlen].
Defined.

Lemma Add_counts_write_throughs_witness :
  let m := Sample.m_a in
  let w := New_world Sample.store_failing in
  exists w',
    Add m w = Ok (tt, w') /\
    (metricsToEsOK w' + metricsToEsFail w' =
     metricsToEsOK w + metricsToEsFail w + (write_throughs w' - write_throughs w))%nat /\
    (metricsToEsFail w' = metricsToEsFail w + (log_errors w' - log_errors w))%nat.
Proof.
  cbv zeta.
  destruct (Add Sample.m_a (New_world Sample.store_failing)) as [[[] w']| |] eqn:Hrun;
    [|vm_compute in Hrun; discriminate Hrun..].
  exists w'. split; [reflexivity|].
  destruct (Add_counts_write_throughs _ _ _ Hrun) as (_ & Hcnt & Hfail & _).
  split; [exact Hcnt|exact Hfail].
Defined.


Lemma Add_keeps_consistent_witness :
  let w := Sample.w_abc in
  let m := Sample.host_cpu (Sample.T + 30000) in
  consistent (dc w) /\ same_series w m /\
  exists w', Add m w = Ok (tt, w') /\ consistent (dc w') /\ position_is_id (dc w').
Proof.
  assert (Hsame : same_series Sample.w_abc (Sample.host_cpu (Sample.T + 30000))).
  { unfold same_series. cbn. rewrite lookup_singleton_eq.
    intros def [= <-]. split; reflexivity. }
  split; [exact Sample_w_abc_consistent|]. split; [exact Hsame|].
  exact (Add_keeps_consistent _ _ Sample_w_abc_consistent Hsame).
Defined.

Lemma Add_then_Get_witness :
  let w := New_world Sample.store_ok in
  let m := Sample.m_a in
  consistent (dc w) /\ same_series w m /\
  exists w',
    Add m w = Ok (tt, w') /\
    Get "a" w' = Ok (Some (MetricDefinitionFromMetricData m), w').
Proof.
  assert (Hc : consistent (dc (New_world Sample.store_ok))) by apply New_world_consistent.
  assert (Hsame : same_series (New_world Sample.store_ok) Sample.m_a) by reflexivity.
  split; [exact Hc|]. split; [exact Hsame|].
  destruct (Add_then_Get _ _ Hc Hsame) as (w' & def & Hrun & Hget & _ & _ & _ & _ & Hnew).
  exists w'. split; [exact Hrun|]. rewrite <- (Hnew eq_refl). exact Hget.
Defined.

Lemma Sample_two_pages_serves :
  serves Sample.two_pages ""
    [("", [MetricDefinitionFromMetricData Sample.m_a]);
     ("s1", [MetricDefinitionFromMetricData Sample.m_c])]
    Sample.two_pages.
Proof.
  eapply serves_page; [reflexivity|discriminate|].
  eapply serves_last. reflexivity.
Qed.

Lemma Backfill_all_pages_witness :
  let w := New_world Sample.two_pages in
  let pgs := [("", [MetricDefinitionFromMetricData Sample.m_a]);
              ("s1", [MetricDefinitionFromMetricData Sample.m_c])] in
  serves (defsStore (dc w)) "" pgs Sample.two_pages /\
  (length pgs <= 2)%nat /\
  exists w',
    Backfill 1 w = Ok (tt, w') /\
    defs (dc w') = [MetricDefinitionFromMetricData Sample.m_a;
                    MetricDefinitionFromMetricData Sample.m_c] /\
    trace w' = [EvGetMetrics ""; EvGetMetrics "s1";
                EvLogDebug "backfilled 2 metric definitions"].
Proof.
  assert (Hfuel : (length [("", [MetricDefinitionFromMetricData Sample.m_a]);
                           ("s1", [MetricDefinitionFromMetricData Sample.m_c])] <= 2)%nat)
    by (cbn; lia).
  split; [exact Sample_two_pages_serves|]. split; [exact Hfuel|].
  destruct (Backfill_all_pages (New_world Sample.two_pages) _ _ 1
              Sample_two_pages_serves Hfuel)
    as (w' & Hrun & _ & Hdefs & Htr & _).
  exists w'. split; [exact Hrun|]. split; [exact Hdefs|exact Htr].
Defined.

Lemma New_then_Get_witness :
  let pgs := [("", [MetricDefinitionFromMetricData Sample.m_a]);
              ("s1", [MetricDefinitionFromMetricData Sample.m_c])] in
  serves Sample.two_pages "" pgs Sample.two_pages /\
  (length pgs <= 2)%nat /\
  NoDup (Id <$> concat pgs.*2) /\
  NoDup ((fun d => (OrgId d, Name d)) <$> concat pgs.*2) /\
  exists w',
    New 1 Sample.two_pages = Ok (tt, w') /\
    Get "c" w' = Ok (Some (MetricDefinitionFromMetricData Sample.m_c), w').
Proof.
  assert (Hfuel : (length [("", [MetricDefinitionFromMetricData Sample.m_a]);
                           ("s1", [MetricDefinitionFromMetricData Sample.m_c])] <= 2)%nat)
    by (cbn; lia).
  assert (Hids : NoDup (Id <$> concat
                   [("", [MetricDefinitionFromMetricData Sample.m_a]);
                    ("s1", [MetricDefinitionFromMetricData Sample.m_c])].*2)).
  { cbn. apply NoDup_cons. split; [|apply NoDup_singleton].
    rewrite list_elem_of_singleton. discriminate. }
  assert (Hnames : NoDup ((fun d => (OrgId d, Name d)) <$> concat
                   [("", [MetricDefinitionFromMetricData Sample.m_a]);
                    ("s1", [MetricDefinitionFromMetricData Sample.m_c])].*2)).
  { cbn. apply NoDup_cons. split; [|apply NoDup_singleton].
    rewrite list_elem_of_singleton. discriminate. }
  split; [exact Sample_two_pages_serves|]. split; [exact Hfuel|].
  split; [exact Hids|]. split; [exact Hnames|].
  destruct (New_then_Get _ _ _ 1 Sample_two_pages_serves Hfuel Hids Hnames)
    as (w' & Hrun & _ & _ & Hget).
  exists w'. split; [exact Hrun|].
  apply (Hget (MetricDefinitionFromMetricData Sample.m_c)).
  cbn. apply list_elem_of_further, list_elem_of_here.
Defined.

Lemma List_visible_witness :
  let w := Sample.w_abc in
  length (revkeys (ByKey (dc w))) = length (defs (dc w)) /\
  position_is_id (dc w) /\
  List 1 w = Ok ([mkMetricDefinition "abc" 1 "host.cpu" Sample.T], w) /\
  List 2 w = Ok ([], w).
Proof.
  assert (Hlen : length (revkeys (ByKey (dc Sample.w_abc))) = length (defs (dc Sample.w_abc)))
    by reflexivity.
  assert (Hpos : position_is_id (dc Sample.w_abc))
    by (now destruct Sample_w_abc_consistent as (_ & Hpos & _)).
  split; [exact Hlen|]. split; [exact Hpos|]. split.
  - exact (proj1 (List_visible 1 _ Hlen Hpos)).
  - exact (proj1 (List_visible 2 _ Hlen Hpos)).
Defined.

Lemma Find_in_range_witness :
  let w := Sample.w_abc in
  in_range (dc w) /\
  Sample.match_literal 1 "host.cpu" (ByKey (dc w)) = (MatchLiteral, [mkGlob 0 "host.cpu"]) /\
  Forall (fun g => (glob_Id g < length (revkeys (ByKey (dc w))))%nat) [mkGlob 0 "host.cpu"] /\
  exists ds,
    Find Sample.match_literal 1 "host.cpu" w = Ok (([mkGlob 0 "host.cpu"], ds), w) /\
    ds = [mkMetricDefinition "abc" 1 "host.cpu" Sample.T].
Proof.
  assert (Hmt : Sample.match_literal 1 "host.cpu" (ByKey (dc Sample.w_abc)) =
                (MatchLiteral, [mkGlob 0 "host.cpu"])) by reflexivity.
  assert (Hids : Forall (fun g => (glob_Id g < length (revkeys (ByKey (dc Sample.w_abc))))%nat)
                   [mkGlob 0 "host.cpu"]) by (repeat constructor).
  split; [exact Sample_w_abc_in_range|]. split; [exact Hmt|]. split; [exact Hids|].
  destruct (Find_in_range Sample.match_literal 1 "host.cpu" Sample.w_abc _ _
              Sample_w_abc_in_range Hmt Hids) as (ds & Hrun & Hds).
  exists ds. split; [exact Hrun|].
  inversion Hds as [|g d gs ds' Hd Hrest]; subst. inversion Hrest; subst.
  cbn in Hd. now injection Hd as <-.
Defined.
